(** * The go-fuse control loop (fuse/fuse.go)

    A shallow embedding of the request lifecycle of [fuse/fuse.go]:
    [newRequest], [readRequest], [chopMessage], [dispatch], [serialize],
    [Write], [discardRequest], [handle] and [loop], followed by the
    properties of the request engine.

    Go values are rendered as follows.
    - [int], [int32], [uint32], [int64], [uint64] are [Z]; conversions
      that can lose bits are written out ([to_uint32], [to_int32], ...).
    - [[]byte] whose capacity matters is a [slice] (backing array plus
      length); byte strings whose capacity is irrelevant are [list byte].
    - a pointer that may be nil is an [option].
    - a method with receiver [me *MountState] and argument [req *request]
      is a computation of the monad [M] over the pair of the request and
      the mount state: it may update both, and it may panic.

    One worker is followed, on the outcomes of its successive reads.
    [Loop], which starts the workers and closes the channel, the mount
    helpers and the statistics accessors are left out. *)

From Stdlib Require Import String ZArith List Bool Lia.
From coqutil Require Import Byte Word.LittleEndianList.
Import ListNotations.
Local Open Scope Z_scope.

(** ** Fixed-width integers *)

Definition to_uint32 (z : Z) : Z := z mod 2 ^ 32.

Definition to_int32 (z : Z) : Z := (z + 2 ^ 31) mod 2 ^ 32 - 2 ^ 31.

Definition to_int64 (z : Z) : Z := (z + 2 ^ 63) mod 2 ^ 64 - 2 ^ 63.

(** ** Byte slices *)

(** A Go slice that starts at the beginning of its backing array: [arr]
    is the whole array (so [cap] is its length) and [len] the number of
    visible elements. *)
Record slice : Type := mkSlice {
  arr : list byte;
  len : Z
}.

Definition cap (s : slice) : Z := Z.of_nat (length (arr s)).

(** The visible elements [s[0:len(s)]]. *)
Definition elems (s : slice) : list byte := firstn (Z.to_nat (len s)) (arr s).

(** [len(s)] of a slice that may be nil. *)
Definition len_opt (s : option slice) : Z :=
  match s with
  | None => 0
  | Some s => len s
  end.

(** [make([]byte, n)]. *)
Definition zeros (n : Z) : list byte := repeat Byte.x00 (Z.to_nat n).

(** The builtin [copy(dst, src)]: the first [min(len(dst), len(src))]
    elements of [dst] are overwritten. *)
Definition copy (dst src : list byte) : list byte :=
  firstn (length dst) src ++ skipn (length src) dst.

(** [copy(dst[off:], src)], seen from [dst]. *)
Definition copy_at (off : nat) (dst src : list byte) : list byte :=
  firstn off dst ++ copy (skipn off dst) src.

(** [asSlice(ptr, byteCount)]: the [byteCount] bytes of memory at [ptr].
    The memory behind a non-nil pointer is given as the bytes of the
    object it points to; the real function would go on reading whatever
    follows that object when [byteCount] is larger. *)
Definition asSlice (ptr : option (list byte)) (byteCount : Z) : list byte :=
  match ptr with
  | None => []
  | Some mem => firstn (Z.to_nat byteCount) mem
  end.

(** ** Wire schema and constants *)

(** Modelled from the spec: [InHeader], [OutHeader], the [Status] codes,
    [FUSE_FORGET] and [PAGESIZE] are declared in files of the package
    other than [fuse.go]. The spec takes them as a given schema with
    host-native numeric encoding and natural alignment; they are fixed
    here to the Linux FUSE layout on a little-endian host:
    [InHeader] is Length uint32, Opcode uint32, Unique uint64, NodeId
    uint64, Uid, Gid, Pid, Padding uint32 (40 bytes) and [OutHeader] is
    Length uint32, Status int32, Unique uint64 (16 bytes). *)
Module Wire.

Record InHeader : Type := mkInHeader {
  Length : Z;
  Opcode : Z;
  Unique : Z;
  NodeId : Z;
  Uid : Z;
  Gid : Z;
  Pid : Z;
  Padding : Z
}.

Record OutHeader : Type := mkOutHeader {
  oLength : Z;
  oStatus : Z;
  oUnique : Z
}.

(** [unsafe.Sizeof(InHeader{})] and [unsafe.Sizeof(OutHeader{})]. *)
Definition inHSize : Z := 40.
Definition sizeOfOutHeader : Z := 16.

(** The unsigned integer stored in the [n] bytes at offset [off]. *)
Definition field (off n : nat) (mem : list byte) : Z :=
  le_combine (firstn n (skipn off mem)).

(** Reading the fields of the [InHeader] that an unsafe pointer cast
    lays over the start of [mem]. *)
Definition viewInHeader (mem : list byte) : InHeader :=
  {| Length := field 0 4 mem;
     Opcode := field 4 4 mem;
     Unique := field 8 8 mem;
     NodeId := field 16 8 mem;
     Uid := field 24 4 mem;
     Gid := field 28 4 mem;
     Pid := field 32 4 mem;
     Padding := field 36 4 mem |}.

(** Reading the fields of the [OutHeader] laid over the start of [mem]. *)
Definition viewOutHeader (mem : list byte) : OutHeader :=
  {| oLength := field 0 4 mem;
     oStatus := to_int32 (field 4 4 mem);
     oUnique := field 8 8 mem |}.

(** The 16 bytes an [OutHeader] occupies in memory. *)
Definition bytesOutHeader (h : OutHeader) : list byte :=
  le_split 4 (oLength h) ++ le_split 4 (oStatus h) ++ le_split 8 (oUnique h).

(** Assigning the three fields through the [OutHeader] pointer laid over
    the start of [mem]. *)
Definition storeOutHeader (mem : list byte) (h : OutHeader) : list byte :=
  copy mem (bytesOutHeader h).

Definition OK : Z := 0.
Definition ENOENT : Z := 2.
Definition EIO : Z := 5.
Definition ENODEV : Z := 19.
Definition ENOSYS : Z := 38.

Definition FUSE_FORGET : Z := 2.

Definition PAGESIZE : Z := 4096.

End Wire.
Import Wire.

(** [bufSize] and [maxRead] of the const block. *)
Definition bufSize : Z := Z.shiftl 1 16.
Definition maxRead : Z := bufSize - PAGESIZE.

(** ** The request *)

Record request : Type := mkRequest {
  inputBuf : slice;
  inHeader : option InHeader;          (* nil, or the header laid over inputBuf *)
  inData : option (list byte);         (* nil, or the per-op data inside inputBuf *)
  arg : list byte;                     (* flat data *)
  outData : option (list byte);        (* nil, or the XxxxOut struct pointed to *)
  status : Z;
  flatData : option slice;
  outHeaderBytes : option (list byte);
  startNs : Z;
  preWriteNs : Z
}.

(** The composite literal [request{status: st, inputBuf: buf}]. *)
Definition requestLit (st : Z) (buf : slice) : request :=
  {| inputBuf := buf; inHeader := None; inData := None; arg := [];
     outData := None; status := st; flatData := None; outHeaderBytes := None;
     startNs := 0; preWriteNs := 0 |}.

Definition set_inputBuf (v : slice) (r : request) : request :=
  mkRequest v (inHeader r) (inData r) (arg r) (outData r) (status r)
            (flatData r) (outHeaderBytes r) (startNs r) (preWriteNs r).

Definition set_inHeader (v : option InHeader) (r : request) : request :=
  mkRequest (inputBuf r) v (inData r) (arg r) (outData r) (status r)
            (flatData r) (outHeaderBytes r) (startNs r) (preWriteNs r).

Definition set_inData (v : option (list byte)) (r : request) : request :=
  mkRequest (inputBuf r) (inHeader r) v (arg r) (outData r) (status r)
            (flatData r) (outHeaderBytes r) (startNs r) (preWriteNs r).

Definition set_arg (v : list byte) (r : request) : request :=
  mkRequest (inputBuf r) (inHeader r) (inData r) v (outData r) (status r)
            (flatData r) (outHeaderBytes r) (startNs r) (preWriteNs r).

Definition set_outData (v : option (list byte)) (r : request) : request :=
  mkRequest (inputBuf r) (inHeader r) (inData r) (arg r) v (status r)
            (flatData r) (outHeaderBytes r) (startNs r) (preWriteNs r).

Definition set_status (v : Z) (r : request) : request :=
  mkRequest (inputBuf r) (inHeader r) (inData r) (arg r) (outData r) v
            (flatData r) (outHeaderBytes r) (startNs r) (preWriteNs r).

Definition set_flatData (v : option slice) (r : request) : request :=
  mkRequest (inputBuf r) (inHeader r) (inData r) (arg r) (outData r) (status r)
            v (outHeaderBytes r) (startNs r) (preWriteNs r).

Definition set_outHeaderBytes (v : option (list byte)) (r : request) : request :=
  mkRequest (inputBuf r) (inHeader r) (inData r) (arg r) (outData r) (status r)
            (flatData r) v (startNs r) (preWriteNs r).

Definition set_startNs (v : Z) (r : request) : request :=
  mkRequest (inputBuf r) (inHeader r) (inData r) (arg r) (outData r) (status r)
            (flatData r) (outHeaderBytes r) v (preWriteNs r).

Definition set_preWriteNs (v : Z) (r : request) : request :=
  mkRequest (inputBuf r) (inHeader r) (inData r) (arg r) (outData r) (status r)
            (flatData r) (outHeaderBytes r) (startNs r) v.

(** ** The operation registry *)

(** What a handler leaves in the output slots of the request. The
    handlers ([doOpen], [doRead], ...) are not part of [fuse.go]; each is
    called as [handler.Func(me, req)], reads the decoded request and
    assigns [req.status], [req.outData] and [req.flatData]. *)
Record handlerResult : Type := mkHandlerResult {
  hStatus : Z;
  hOutData : option (list byte);
  hFlatData : option slice
}.

(** [operationHandler]: the fields of a registry entry that [fuse.go]
    uses. [Func] may be nil. *)
Record operationHandler : Type := mkOperationHandler {
  Func : option (request -> handlerResult);
  InputSize : Z;
  OutputSize : Z
}.

(** ** The buffer pool *)

(** Modelled from the spec: [BufferPool] ([NewBufferPool], [AllocBuffer],
    [FreeBuffer]) is declared outside [fuse.go]. It is a reuse cache of
    byte buffers: [FreeBuffer] makes a buffer eligible for a later
    [AllocBuffer], and [AllocBuffer size] hands out a buffer of length and
    capacity [size], a released one of that capacity if there is one and
    a new one otherwise. The spec calls a buffer just handed out
    logically empty; the length it has here is the one
    [AllocBuffer(bufSize)] asks for, the room the read that follows
    needs. *)
Module BufferPool.

Record t : Type := mkPool {
  free : list (list byte);    (* backing arrays that were released *)
  created : Z                 (* how many arrays were allocated *)
}.

Definition NewBufferPool : t := mkPool [] 0.

Fixpoint takeBuffer (size : Z) (l : list (list byte))
  : option (list byte * list (list byte)) :=
  match l with
  | [] => None
  | b :: rest =>
      if Z.of_nat (length b) =? size then Some (b, rest)
      else match takeBuffer size rest with
           | Some (b', rest') => Some (b', b :: rest')
           | None => None
           end
  end.

Definition AllocBuffer (p : t) (size : Z) : slice * t :=
  match takeBuffer size (free p) with
  | Some (b, rest) => (mkSlice b size, mkPool rest (created p))
  | None => (mkSlice (zeros size) size, mkPool (free p) (created p + 1))
  end.

Definition FreeBuffer (p : t) (s : option slice) : t :=
  match s with
  | None => p
  | Some s => mkPool (arr s :: free p) (created p)
  end.

End BufferPool.

(** ** The latency map *)

(** [LatencyArg{Name, Arg, DtNs}]. *)
Record LatencyArg : Type := mkLatencyArg {
  laName : string;
  laArg : string;
  laDtNs : Z
}.

(** Modelled from the spec: [LatencyMap] is declared outside [fuse.go].
    It accumulates the records passed to [AddMany]; they are kept in the
    order in which they were added. *)
Definition LatencyMapT : Type := list LatencyArg.

Definition AddMany (m : LatencyMapT) (args : list LatencyArg) : LatencyMapT :=
  m ++ args.

(** ** What a worker does to the outside *)

Inductive LogMsg : Type :=
| LogShortHeader (buf : list byte)               (* "Short read for input header: %v" *)
| LogUnknownOpcode (op : Z)                      (* "Unknown opcode %v" *)
| LogShortRead (op : Z) (a : list byte)          (* "Short read for %v: %v" *)
| LogReadFailed (errNo : Z)                      (* "Failed to read from fuse conn: %v" *)
| LogWriteFailed (b : list byte) (errNo : Z) (opname : string)
| LogDispatch (opname : string) (nodeId : Z)     (* "Dispatch: %v, NodeId: %v %s" *)
| LogSerialize (opname : string) (st : Z).       (* "Serialize: %v code: %v ..." *)

Inductive Event : Type :=
| EvLog (m : LogMsg)                    (* log.Printf *)
| EvRead (buf : slice)                  (* mountFile.Read(buf) *)
| EvWrite (b : list byte)               (* mountFile.Write(b) *)
| EvWritev (b flat : list byte)         (* Writev(fd, [b, flat]) *)
| EvCall (req : request).               (* handler.Func(me, req) *)

Definition isReply (e : Event) : bool :=
  match e with
  | EvWrite _ | EvWritev _ _ => true
  | _ => false
  end.

Definition isCall (e : Event) : bool :=
  match e with
  | EvCall _ => true
  | _ => false
  end.

(** The header-and-struct buffer of a write to the channel. *)
Definition replyBytes (e : Event) : option (list byte) :=
  match e with
  | EvWrite b | EvWritev b _ => Some b
  | _ => None
  end.

(** ** The mount state *)

(** The fields of [MountState] that the control loop uses, followed by
    the environment of the worker: [writeErrs] gives the outcome of the
    coming writes to [mountFile] (the errno of a failing write, in the
    order of the writes; a write beyond the list succeeds), [clock] is
    the next value of [time.Nanoseconds()], and [trace] collects what the
    worker did, oldest event first. *)
Record MountState : Type := mkMountState {
  Debug : bool;
  buffers : BufferPool.t;
  LatencyMap : option LatencyMapT;
  writeErrs : list (option Z);
  clock : Z;
  trace : list Event
}.

Definition set_buffers (v : BufferPool.t) (m : MountState) : MountState :=
  mkMountState (Debug m) v (LatencyMap m) (writeErrs m) (clock m) (trace m).

Definition set_LatencyMap (v : option LatencyMapT) (m : MountState) : MountState :=
  mkMountState (Debug m) (buffers m) v (writeErrs m) (clock m) (trace m).

Definition set_writeErrs (v : list (option Z)) (m : MountState) : MountState :=
  mkMountState (Debug m) (buffers m) (LatencyMap m) v (clock m) (trace m).

Definition set_clock (v : Z) (m : MountState) : MountState :=
  mkMountState (Debug m) (buffers m) (LatencyMap m) (writeErrs m) v (trace m).

Definition set_trace (v : list Event) (m : MountState) : MountState :=
  mkMountState (Debug m) (buffers m) (LatencyMap m) (writeErrs m) (clock m) v.

(** [NewMountState(fs)], for a worker whose writes all succeed. *)
Definition NewMountState : MountState :=
  mkMountState false BufferPool.NewBufferPool None [] 0 [].

(** [SetRecordStatistics(record)]. *)
Definition SetRecordStatistics (record : bool) (m : MountState) : MountState :=
  if record then set_LatencyMap (Some []) m else set_LatencyMap None m.

(** ** Computations that may panic *)

Inductive PanicReason : Type :=
| NilDereference      (* field access through a nil pointer *)
| NilFuncCall         (* call of a nil func value *)
| SliceOutOfRange     (* s[0:n] with n outside 0..cap(s) *)
| MakeOutOfRange      (* make([]byte, n) with n negative *)
| HeaderOverrun.      (* a header laid over fewer bytes than it has *)

Inductive result (A : Type) : Type :=
| Val (a : A)
| Panic (why : PanicReason).

Arguments Val {A} a.
Arguments Panic {A} why.

Definition M (S A : Type) : Type := S -> result A * S.

Definition ret {S A : Type} (a : A) : M S A := fun s => (Val a, s).

Definition bind {S A B : Type} (m : M S A) (k : A -> M S B) : M S B :=
  fun s =>
    match m s with
    | (Val a, s') => k a s'
    | (Panic why, s') => (Panic why, s')
    end.

Definition panic {S A : Type} (why : PanicReason) : M S A :=
  fun s => (Panic why, s).

Definition getState {S : Type} : M S S := fun s => (Val s, s).

Definition modifyState {S : Type} (f : S -> S) : M S unit :=
  fun s => (Val tt, f s).

Declare Scope go_scope.
Delimit Scope go_scope with go.
Notation "x <- m ;; k" := (bind m (fun x => k))
  (at level 61, m at next level, right associativity) : go_scope.
Notation "m ;; k" := (bind m (fun _ => k))
  (at level 61, right associativity) : go_scope.
Local Open Scope go_scope.

(** [p.field] for a pointer [p]. *)
Definition deref {S A : Type} (p : option A) : M S A :=
  match p with
  | Some a => ret a
  | None => panic NilDereference
  end.

(** [s[0:hi]]. *)
Definition reslice {S : Type} (s : slice) (hi : Z) : M S slice :=
  if (0 <=? hi) && (hi <=? cap s) then ret (mkSlice (arr s) hi)
  else panic SliceOutOfRange.

(** [make([]byte, n)]. *)
Definition make {S : Type} (n : Z) : M S (list byte) :=
  if n <? 0 then panic MakeOutOfRange else ret (zeros n).

(** [defer d] in front of [body]: the deferred call runs when the body
    returns and also when it panics; the panic goes on afterwards. *)
Definition defer {S A : Type} (d : M S unit) (body : M S A) : M S A :=
  fun s =>
    match body s with
    | (Val a, s') =>
        match d s' with
        | (Val _, s'') => (Val a, s'')
        | (Panic why, s'') => (Panic why, s'')
        end
    | (Panic why, s') =>
        match d s' with
        | (Val _, s'') => (Panic why, s'')
        | (Panic why', s'') => (Panic why', s'')
        end
    end.

(** The state of a method call [me.f(req)]: the request [req] points to,
    and the mount state. *)
Definition St : Type := (request * MountState)%type.

Definition getReq : M St request := fun s => (Val (fst s), s).

Definition getMe : M St MountState := fun s => (Val (snd s), s).

Definition updReq (f : request -> request) : M St unit :=
  fun s => (Val tt, (f (fst s), snd s)).

Definition updMe (f : MountState -> MountState) : M St unit :=
  fun s => (Val tt, (fst s, f (snd s))).

Definition record (e : Event) (m : MountState) : MountState :=
  set_trace (trace m ++ [e]) m.

Definition emit (e : Event) : M St unit := updMe (record e).

(** [time.Nanoseconds()]. *)
Definition Nanoseconds : M St Z :=
  fun s => (Val (clock (snd s)), (fst s, set_clock (clock (snd s) + 1) (snd s))).

(** A write on the channel: the event is recorded and the outcome of the
    write is taken from [writeErrs]. *)
Definition chanWrite (e : Event) : M St (option Z) :=
  emit e;;
  me <- getMe;;
  match writeErrs me with
  | [] => ret None
  | err :: rest => updMe (set_writeErrs rest);; ret err
  end.

(** Running a method on the request [req] from the loop. *)
Definition withReq {A : Type} (req : request) (m : M St A)
  : M MountState (A * request) :=
  fun me =>
    match m (req, me) with
    | (Val a, (req', me')) => (Val (a, req'), me')
    | (Panic why, (_, me')) => (Panic why, me')
    end.

(** What one call of [mountFile.Read] delivers: the bytes of the message
    (the call stores as many of them as the buffer has room for) and, when
    it fails, the error as [OsErrorToErrno] renders it. *)
Record ReadOutcome : Type := mkReadOutcome {
  rdData : list byte;
  rdErr : option Z
}.

Inductive Flow : Type :=
| Continue
| Break.

(** The state of a worker after it has consumed some reads: still in its
    loop (with the request it recycles), or out of it. *)
Inductive Worker : Type :=
| RUNNING (lastReq : option request)
| STOPPED.

(** ** The control loop *)

Section Engine.

(** The registry lookups [getHandler] and [operationName] are defined
    next to the opcode table, outside [fuse.go]; the loop is
    parameterised by them. [getHandler] returns nil for an opcode that
    has no entry. *)
Variable getHandler : Z -> option operationHandler.
Variable operationName : Z -> string.

Definition newRequest (oldReq : option request) : M MountState request :=
  match oldReq with
  | Some old =>
      modifyState (fun me =>
        set_buffers (BufferPool.FreeBuffer (buffers me) (flatData old)) me);;
      buf <- reslice (inputBuf old) bufSize;;
      ret (requestLit OK buf)
  | None =>
      me <- getState;;
      let (buf, pool) := BufferPool.AllocBuffer (buffers me) bufSize in
      modifyState (set_buffers pool);;
      ret (requestLit OK buf)
  end.

Definition readRequest (rd : ReadOutcome) : M St (option Z) :=
  req <- getReq;;
  emit (EvRead (inputBuf req));;
  let buf := inputBuf req in
  let stored := firstn (Z.to_nat (len buf)) (rdData rd) in
  let n := Z.of_nat (length stored) in
  updReq (set_inputBuf (mkSlice (copy (arr buf) stored) (len buf)));;
  me <- getMe;;
  match LatencyMap me with
  | Some _ => t <- Nanoseconds;; updReq (set_startNs t)
  | None => ret tt
  end;;
  req <- getReq;;
  buf' <- reslice (inputBuf req) n;;
  updReq (set_inputBuf buf');;
  ret (rdErr rd).

Definition discardRequest : M St unit :=
  me <- getMe;;
  match LatencyMap me with
  | Some _ =>
      endNs <- Nanoseconds;;
      req <- getReq;;
      let dt := to_int64 (endNs - startNs req) in
      hdr <- deref (inHeader req);;
      let opname := operationName (Opcode hdr) in
      updMe (fun me =>
        set_LatencyMap
          (option_map
             (fun m => AddMany m
                [ mkLatencyArg opname EmptyString dt;
                  mkLatencyArg (opname ++ "-write") EmptyString
                               (to_int64 (endNs - preWriteNs req)) ])
             (LatencyMap me)) me)
  | None => ret tt
  end.

Definition chopMessage : M St (option operationHandler) :=
  req <- getReq;;
  if len (inputBuf req) <? inHSize then
    emit (EvLog (LogShortHeader (elems (inputBuf req))));;
    ret None
  else
    updReq (set_inHeader (Some (viewInHeader (elems (inputBuf req)))));;
    updReq (set_arg (skipn (Z.to_nat inHSize) (elems (inputBuf req))));;
    req <- getReq;;
    hdr <- deref (inHeader req);;
    let handler := getHandler (Opcode hdr) in
    match handler with
    | Some h =>
        match Func h with
        | Some _ =>
            if Z.of_nat (length (arg req)) <? InputSize h then
              emit (EvLog (LogShortRead (Opcode hdr) (arg req)));;
              updReq (set_status EIO);;
              ret handler
            else
              (if 0 <? InputSize h then
                 updReq (set_inData
                           (Some (firstn (Z.to_nat (InputSize h)) (arg req))));;
                 updReq (set_arg (skipn (Z.to_nat (InputSize h)) (arg req)))
               else ret tt);;
              ret handler
        | None =>
            emit (EvLog (LogUnknownOpcode (Opcode hdr)));;
            updReq (set_status ENOSYS);;
            ret handler
        end
    | None =>
        emit (EvLog (LogUnknownOpcode (Opcode hdr)));;
        updReq (set_status ENOSYS);;
        ret handler
    end.

Definition dispatch (handler : operationHandler) : M St unit :=
  me <- getMe;;
  (if Debug me then
     req <- getReq;;
     hdr <- deref (inHeader req);;
     emit (EvLog (LogDispatch (operationName (Opcode hdr)) (NodeId hdr)))
   else ret tt);;
  match Func handler with
  | Some f =>
      req <- getReq;;
      emit (EvCall req);;
      let r := f req in
      updReq (fun req =>
        set_flatData (hFlatData r)
          (set_outData (hOutData r) (set_status (hStatus r) req)))
  | None => panic NilFuncCall
  end.

Definition serialize (handler : operationHandler) (debug : bool) : M St unit :=
  req <- getReq;;
  let dataLength :=
    match outData req with
    | None => 0
    | Some _ => if status req =? OK then OutputSize handler else 0
    end in
  buf <- make (sizeOfOutHeader + dataLength);;
  updReq (set_outHeaderBytes (Some buf));;
  (if Z.of_nat (length buf) <? sizeOfOutHeader then panic HeaderOverrun
   else ret tt);;
  hdr <- deref (inHeader req);;
  let outHeader :=
    {| oUnique := Unique hdr;
       oStatus := to_int32 (- status req);
       oLength := to_uint32 (sizeOfOutHeader + dataLength
                             + len_opt (flatData req)) |} in
  let buf := storeOutHeader buf outHeader in
  let buf := copy_at (Z.to_nat sizeOfOutHeader) buf
                     (asSlice (outData req) dataLength) in
  updReq (set_outHeaderBytes (Some buf));;
  if debug then
    emit (EvLog (LogSerialize (operationName (Opcode hdr)) (status req)))
  else ret tt.

Definition Write : M St unit :=
  me <- getMe;;
  match LatencyMap me with
  | Some _ => t <- Nanoseconds;; updReq (set_preWriteNs t)
  | None => ret tt
  end;;
  req <- getReq;;
  match outHeaderBytes req with
  | None => ret tt
  | Some b =>
      err <- match flatData req with
             | None => chanWrite (EvWrite b)
             | Some flat => chanWrite (EvWritev b (elems flat))
             end;;
      match err with
      | Some errNo =>
          hdr <- deref (inHeader req);;
          emit (EvLog (LogWriteFailed b errNo (operationName (Opcode hdr))))
      | None => ret tt
      end
  end.

Definition handle : M St unit :=
  defer discardRequest
    (handler <- chopMessage;;
     match handler with
     | None => ret tt
     | Some h =>
         req <- getReq;;
         (if status req =? OK then dispatch h else ret tt);;
         req <- getReq;;
         hdr <- deref (inHeader req);;
         if negb (Opcode hdr =? FUSE_FORGET) then
           me <- getMe;;
           serialize h (Debug me);;
           Write
         else ret tt
     end).

(** One turn of the [for] loop of [loop], on the outcome [rd] of its
    read. *)
Definition loopBody (lastReq : option request) (rd : ReadOutcome)
  : M MountState (Flow * request) :=
  req <- newRequest lastReq;;
  withReq req
    (err <- readRequest rd;;
     match err with
     | Some errNo =>
         if errNo =? ENOENT then discardRequest;; ret Continue
         else if errNo =? ENODEV then ret Break
         else if errNo =? ENOSYS then ret Break
         else
           updMe (record (EvLog (LogReadFailed errNo)));;
           ret Break
     | None => handle;; ret Continue
     end).

(** The loop, run on the outcomes of its successive reads. A worker
    that has used them all is blocked in the next read. *)
Fixpoint loopFrom (lastReq : option request) (reads : list ReadOutcome)
  : M MountState Worker :=
  match reads with
  | [] => ret (RUNNING lastReq)
  | rd :: rest =>
      r <- loopBody lastReq rd;;
      match fst r with
      | Continue => loopFrom (Some (snd r)) rest
      | Break => ret STOPPED
      end
  end.

Definition loop (reads : list ReadOutcome) : M MountState Worker :=
  loopFrom None reads.

End Engine.

(** ** Observing a run *)

Definition outcome {S A : Type} (r : result A * S) : result A := fst r.

Definition finalReq {A : Type} (r : result A * St) : request := fst (snd r).

Definition finalMe {A : Type} (r : result A * St) : MountState := snd (snd r).

(** The events a run has added to the trace. *)
Definition newEvents (before after : MountState) : list Event :=
  skipn (length (trace before)) (trace after).

(** The replies written to the channel, and the handler calls. *)
Definition replies (evs : list Event) : list Event := filter isReply evs.

Definition calls (evs : list Event) : list Event := filter isCall evs.

(** The buffers handed to [mountFile.Read]. *)
Fixpoint readBuffers (evs : list Event) : list slice :=
  match evs with
  | [] => []
  | EvRead buf :: rest => buf :: readBuffers rest
  | _ :: rest => readBuffers rest
  end.

(** The request a worker recycles holds a buffer of the full size. *)
Definition holdsFullBuffer (lastReq : option request) : Prop :=
  match lastReq with
  | Some old => cap (inputBuf old) = bufSize
  | None => True
  end.


(** The request as a read leaves it: the message is stored at the start
    of the buffer [buf], and [t] is the time that was taken. *)
Definition afterRead (buf : slice) (rd : ReadOutcome) (t : Z) : request :=
  let stored := firstn (Z.to_nat (len buf)) (rdData rd) in
  set_startNs t
    (requestLit OK (mkSlice (copy (arr buf) stored) (Z.of_nat (length stored)))).

(** ** A small registry and some messages *)

Module Fixture.

Definition LOOKUP : Z := 1.
Definition READ : Z := 15.
Definition BMAP : Z := 37.

(** [LOOKUP] succeeds with an 8-byte struct; [FUSE_FORGET] has an
    8-byte argument and succeeds with nothing; [READ] has a 16-byte
    argument and fails with [EIO] while leaving three bytes of flat
    data; [BMAP] has a 16-byte argument and no handler function. Other
    opcodes have no entry. *)
Definition getHandler (op : Z) : option operationHandler :=
  if op =? LOOKUP then
    Some (mkOperationHandler
            (Some (fun _ => mkHandlerResult OK (Some (le_split 8 7)) None)) 0 8)
  else if op =? FUSE_FORGET then
    Some (mkOperationHandler
            (Some (fun _ => mkHandlerResult OK None None)) 8 0)
  else if op =? READ then
    Some (mkOperationHandler
            (Some (fun _ => mkHandlerResult EIO None
                              (Some (mkSlice (le_split 3 5) 3)))) 16 0)
  else if op =? BMAP then
    Some (mkOperationHandler None 16 0)
  else None.

Definition operationName (op : Z) : string :=
  if op =? LOOKUP then "LOOKUP"%string
  else if op =? FUSE_FORGET then "FORGET"%string
  else if op =? READ then "READ"%string
  else if op =? BMAP then "BMAP"%string
  else "unknown"%string.

(** A message: the 40-byte header followed by [body]. *)
Definition message (op unique nodeId : Z) (body : list byte) : list byte :=
  le_split 4 (inHSize + Z.of_nat (length body)) ++ le_split 4 op
    ++ le_split 8 unique ++ le_split 8 nodeId ++ le_split 16 0 ++ body.

(** A request that holds [msg] in a buffer of just that size. *)
Definition received (msg : list byte) : request :=
  requestLit OK (mkSlice msg (Z.of_nat (length msg))).

(** A read that delivers [msg]. *)
Definition delivers (msg : list byte) : ReadOutcome := mkReadOutcome msg None.

(** A read that fails with [errNo]. *)
Definition fails (errNo : Z) : ReadOutcome := mkReadOutcome [] (Some errNo).

Definition shortMsg : list byte := le_split 24 0.
Definition lookupMsg : list byte := message LOOKUP 77 1 (le_split 8 0).
Definition forgetMsg : list byte := message FUSE_FORGET 78 1 (le_split 8 1).
Definition readMsg : list byte := message READ 79 1 (le_split 16 0).
Definition shortReadMsg : list byte := message READ 80 1 (le_split 8 0).
Definition shortBmapMsg : list byte := message BMAP 81 1 (le_split 8 0).
Definition unknownMsg : list byte := message 99 82 1 [].

(** A mount state that records statistics. *)
Definition recording : MountState := SetRecordStatistics true NewMountState.

(** The reply to [lookupMsg]: 24 bytes in all, status 0, the id 77 of
    the request, and the struct of the handler. *)
Definition lookupReply : list byte :=
  le_split 4 24 ++ le_split 4 0 ++ le_split 8 77 ++ le_split 8 7.

(** [lookupMsg] after its handler has run. *)
Definition lookupDone : request :=
  set_outData (Some (le_split 8 7))
    (set_inHeader (Some (viewInHeader lookupMsg)) (received lookupMsg)).

(** A request that went through the loop once: a full-size buffer that
    holds [readMsg], and the flat data its handler left. *)
Definition used : request :=
  set_flatData (Some (mkSlice (le_split 3 5) 3))
    (afterRead (mkSlice (zeros bufSize) bufSize) (delivers readMsg) 0).

End Fixture.

(** ** File names in the tail of a request *)

Definition isNul (c : byte) : bool := Byte.eqb c Byte.x00.

Fixpoint dropNuls (s : list byte) : list byte :=
  match s with
  | [] => []
  | c :: rest => if isNul c then dropNuls rest else s
  end.

(** [strings.TrimRight(s, "\x00")]: the bytes of [s] up to the last one
    that is not NUL. A Go string is its bytes, and a NUL byte is a
    character of its own wherever it stands. *)
Definition TrimRightNul (s : list byte) : list byte :=
  rev (dropNuls (rev s)).

(** [strings.Count(s, "\x00")]. *)
Fixpoint countNul (s : list byte) : nat :=
  match s with
  | [] => O
  | c :: rest => if isNul c then S (countNul rest) else countNul rest
  end.

(** The loop of [strings.Split]: [s] is cut at its first [cuts]
    separators, and what follows the last cut is one piece. *)
Fixpoint cutNul (cuts : nat) (s : list byte) : list (list byte) :=
  match s with
  | [] => [[]]
  | c :: rest =>
      match cuts with
      | O => [s]
      | S cuts' =>
          if isNul c then [] :: cutNul cuts' rest
          else match cutNul cuts rest with
               | piece :: pieces => (c :: piece) :: pieces
               | [] => [[c]]
               end
      end
  end.

(** [strings.Split(s, "\x00", n)], with the three arguments it had when
    the file was written: no piece for [n = 0], at most [n] pieces for
    [n > 0] (the last one is the rest of [s], uncut), and every piece
    for [n < 0]. *)
Definition SplitNul (s : list byte) (n : Z) : list (list byte) :=
  if n =? 0 then []
  else if n <? 0 then cutNul (countNul s) s
  else cutNul (Z.to_nat (n - 1)) s.

(** [strings.Join(pieces, "\x00")]. *)
Fixpoint joinNul (pieces : list (list byte)) : list byte :=
  match pieces with
  | [] => []
  | [p] => p
  | p :: rest => p ++ Byte.x00 :: joinNul rest
  end.

Definition filename (req : request) : list byte := TrimRightNul (arg req).

Definition filenames (req : request) (count : Z) : list (list byte) :=
  SplitNul (arg req) count.

(** ** Vocabulary for the further properties *)

(** The request as [chopMessage] leaves it for an entry whose fixed
    input is [inputSize] bytes long and fits the argument region: the
    header is laid over the buffer, and the region behind it is cut into
    the fixed input and the tail. *)
Definition decoded (inputSize : Z) (req : request) : request :=
  let msg := elems (inputBuf req) in
  let region := skipn (Z.to_nat inHSize) msg in
  let req1 := set_arg region (set_inHeader (Some (viewInHeader msg)) req) in
  if 0 <? inputSize then
    set_arg (skipn (Z.to_nat inputSize) region)
      (set_inData (Some (firstn (Z.to_nat inputSize) region)) req1)
  else req1.

(** The bytes of a struct a handler may have left, none for nil. *)
Definition structBytes (p : option (list byte)) : list byte :=
  match p with
  | Some d => d
  | None => []
  end.

(** The write that carries the reply bytes [b]: a plain write, or a
    vectored one when there is flat data. *)
Definition replyWrite (b : list byte) (flat : option slice) : Event :=
  match flat with
  | None => EvWrite b
  | Some fl => EvWritev b (elems fl)
  end.

(** A tail with two names, as a rename sends it: "old", NUL, "new", NUL. *)
Definition renameTail : list byte :=
  [Byte.x6f; Byte.x6c; Byte.x64; Byte.x00; Byte.x6e; Byte.x65; Byte.x77; Byte.x00].

Definition renameReq : request := set_arg renameTail (requestLit OK (mkSlice [] 0)).

(** A second registry: [GETATTR] has a 16-byte argument and fails with
    [ENOENT], leaving a struct behind all the same; [READ] has a 16-byte
    argument and succeeds with three bytes of flat data and no struct. *)
Module Sample.

Definition GETATTR : Z := 3.
Definition READ : Z := 15.

Definition getattrResult : handlerResult :=
  mkHandlerResult ENOENT (Some (le_split 8 9)) None.

Definition readResult : handlerResult :=
  mkHandlerResult OK None (Some (mkSlice (le_split 3 5) 3)).

Definition getattrHandler : operationHandler :=
  mkOperationHandler (Some (fun _ => getattrResult)) 16 8.

Definition readHandler : operationHandler :=
  mkOperationHandler (Some (fun _ => readResult)) 16 0.

Definition getHandler (op : Z) : option operationHandler :=
  if op =? GETATTR then Some getattrHandler
  else if op =? READ then Some readHandler
  else None.

Definition getattrMsg : list byte := Fixture.message GETATTR 90 1 (le_split 16 0).
Definition readMsg : list byte := Fixture.message READ 91 1 (le_split 16 0).

(** A request whose reply is encoded, and a channel whose next write
    fails with [EIO]. *)
Definition encoded : request :=
  set_outHeaderBytes (Some Fixture.lookupReply) Fixture.lookupDone.

Definition failingChannel : MountState := set_writeErrs [Some EIO] NewMountState.

(** A buffer as the pool hands it out. *)
Definition freshBuffer : slice := mkSlice (zeros bufSize) bufSize.

End Sample.

(** * Properties *)

(** ** Lists of bytes and the wire layout *)

Lemma length_zeros (n : Z) : 0 <= n -> Z.of_nat (length (zeros n)) = n.
Proof. intros H. unfold zeros. rewrite repeat_length. lia. Qed.

Lemma length_copy (dst src : list byte) : length (copy dst src) = length dst.
Proof.
  unfold copy. rewrite length_app, length_firstn, length_skipn. lia.
Qed.

Lemma copy_prefix (dst src : list byte) :
  (length src <= length dst)%nat -> copy dst src = src ++ skipn (length src) dst.
Proof. intros H. unfold copy. rewrite firstn_all2 by lia. reflexivity. Qed.

Lemma length_copy_at (off : nat) (dst src : list byte) :
  length (copy_at off dst src) = length dst.
Proof.
  unfold copy_at. rewrite length_app, length_copy, length_firstn, length_skipn. lia.
Qed.

Lemma firstn_copy_at (off : nat) (dst src : list byte) :
  (off <= length dst)%nat -> firstn off (copy_at off dst src) = firstn off dst.
Proof.
  intros H. unfold copy_at.
  rewrite firstn_app, length_firstn, Nat.min_l, Nat.sub_diag by lia.
  simpl. rewrite app_nil_r. apply firstn_all2. rewrite length_firstn. lia.
Qed.

Lemma field_firstn (off n k : nat) (mem : list byte) :
  (off + n <= k)%nat -> field off n (firstn k mem) = field off n mem.
Proof.
  intros H. unfold field. rewrite skipn_firstn_comm, firstn_firstn.
  rewrite Nat.min_l by lia. reflexivity.
Qed.

Lemma length_bytesOutHeader (h : OutHeader) : length (bytesOutHeader h) = 16%nat.
Proof.
  unfold bytesOutHeader. rewrite !length_app, !length_le_split. reflexivity.
Qed.

Lemma viewOutHeader_firstn (mem : list byte) :
  viewOutHeader (firstn 16 mem) = viewOutHeader mem.
Proof.
  unfold viewOutHeader. rewrite !field_firstn by lia. reflexivity.
Qed.

Lemma field_app_l (off n : nat) (a b : list byte) :
  (off + n <= length a)%nat -> field off n (a ++ b) = field off n a.
Proof.
  intros H. unfold field.
  rewrite skipn_app, firstn_app, length_skipn.
  replace (n - (length a - off))%nat with 0%nat by lia.
  simpl. rewrite app_nil_r. reflexivity.
Qed.

Lemma field_app_r (k off n : nat) (a b : list byte) :
  length a = k -> field (k + off) n (a ++ b) = field off n b.
Proof.
  intros H. subst k. unfold field.
  rewrite skipn_app, skipn_all2 by lia.
  replace (length a + off - length a)%nat with off by lia. reflexivity.
Qed.

Lemma field_le_split (n : nat) (z : Z) :
  field 0 n (le_split n z) = z mod 2 ^ (Z.of_nat n * 8).
Proof.
  unfold field. simpl skipn.
  rewrite firstn_all2 by (rewrite length_le_split; lia).
  apply le_combine_split.
Qed.

Lemma viewOutHeader_bytes (h : OutHeader) :
  viewOutHeader (bytesOutHeader h)
  = {| oLength := oLength h mod 2 ^ 32;
       oStatus := to_int32 (oStatus h mod 2 ^ 32);
       oUnique := oUnique h mod 2 ^ 64 |}.
Proof.
  unfold viewOutHeader, bytesOutHeader.
  rewrite (field_app_l 0 4) by (rewrite length_le_split; lia).
  rewrite (field_app_r 4 0 4) by apply length_le_split.
  rewrite (field_app_l 0 4) by (rewrite length_le_split; lia).
  rewrite (field_app_r 4 4 8) by apply length_le_split.
  rewrite (field_app_r 4 0 8) by apply length_le_split.
  rewrite !field_le_split. reflexivity.
Qed.

(** The header that [serialize] stores is the header that is read back
    from the reply, whatever payload follows it. *)
Lemma viewOutHeader_stored (buf payload : list byte) (h : OutHeader) :
  (16 <= length buf)%nat ->
  viewOutHeader (copy_at 16 (storeOutHeader buf h) payload)
  = {| oLength := oLength h mod 2 ^ 32;
       oStatus := to_int32 (oStatus h mod 2 ^ 32);
       oUnique := oUnique h mod 2 ^ 64 |}.
Proof.
  intros H. rewrite <- viewOutHeader_firstn.
  unfold storeOutHeader.
  rewrite firstn_copy_at by (rewrite length_copy; lia).
  rewrite copy_prefix by (rewrite length_bytesOutHeader; lia).
  rewrite firstn_app, length_bytesOutHeader. simpl Nat.sub. simpl firstn at 2.
  rewrite app_nil_r.
  rewrite <- length_bytesOutHeader with (h := h) at 1. rewrite firstn_all.
  apply viewOutHeader_bytes.
Qed.

Lemma field_range (off n : nat) (mem : list byte) :
  0 <= field off n mem < 2 ^ (8 * Z.of_nat n).
Proof.
  unfold field.
  pose proof (le_combine_bound (firstn n (skipn off mem))) as B.
  assert (L : (length (firstn n (skipn off mem)) <= n)%nat)
    by (rewrite length_firstn; lia).
  split; [lia|].
  eapply Z.lt_le_trans; [apply B|].
  apply Z.pow_le_mono_r; lia.
Qed.

Lemma Unique_range (mem : list byte) :
  0 <= Unique (viewInHeader mem) < 2 ^ 64.
Proof. apply (field_range 8 8 mem). Qed.

(** ** Symbolic execution of the engine *)

Lemma skipn_app_exact {A : Type} (l l' : list A) : skipn (length l) (l ++ l') = l'.
Proof. rewrite skipn_app, skipn_all, Nat.sub_diag. reflexivity. Qed.

Lemma EIO_not_OK : (EIO =? OK) = false.
Proof. reflexivity. Qed.

Lemma ENOSYS_not_OK : (ENOSYS =? OK) = false.
Proof. reflexivity. Qed.

(** Unfolds the engine and the monad; what is left is a tree of case
    distinctions on the tests the code makes. *)
Ltac go_unfold :=
  cbv beta iota zeta delta
    [handle defer chopMessage dispatch serialize Write discardRequest
     bind ret panic getState modifyState deref make reslice
     getReq getMe updReq updMe emit record chanWrite Nanoseconds fst snd
     inputBuf inHeader inData arg outData status flatData outHeaderBytes
     startNs preWriteNs
     set_inputBuf set_inHeader set_inData set_arg set_outData set_status
     set_flatData set_outHeaderBytes set_startNs set_preWriteNs
     Debug buffers LatencyMap writeErrs clock trace
     set_buffers set_LatencyMap set_writeErrs set_clock set_trace
     hStatus hOutData hFlatData requestLit option_map
     outcome finalReq finalMe newEvents].

(** Splits on the innermost test that blocks the computation. *)
Ltac go_split :=
  match goal with
  | |- context [match ?x with _ => _ end] =>
      lazymatch x with
      | context [match _ with _ => _ end] => fail
      | _ => destruct x eqn:?
      end
  end.

Lemma header_make_ok : (sizeOfOutHeader + 0 <? 0) = false.
Proof. reflexivity. Qed.

Lemma header_room_ok :
  (Z.of_nat (length (zeros (sizeOfOutHeader + 0))) <? sizeOfOutHeader) = false.
Proof. reflexivity. Qed.

Ltac go_simp :=
  rewrite ?EIO_not_OK, ?ENOSYS_not_OK, ?Z.eqb_refl,
          ?header_make_ok, ?header_room_ok;
  cbv beta iota delta [negb].

Ltac go_run_with t :=
  go_unfold; repeat progress (go_simp; t);
  repeat (go_split; repeat progress (go_simp; t)).

Ltac go_run := go_run_with idtac.

Ltac trace_norm :=
  rewrite <- ?app_assoc; rewrite ?skipn_app_exact, ?skipn_all; cbn [app].

Ltac open_state req me :=
  let ib := fresh "ib" in let ih := fresh "ih" in let id := fresh "id" in
  let a := fresh "a" in let od := fresh "od" in let st := fresh "st" in
  let fd := fresh "fd" in let ohb := fresh "ohb" in
  let sn := fresh "sn" in let pn := fresh "pn" in
  let dbg := fresh "dbg" in let bufs := fresh "bufs" in let lm := fresh "lm" in
  let we := fresh "we" in let clk := fresh "clk" in let tr := fresh "tr" in
  destruct req as [ib ih id a od st fd ohb sn pn];
  destruct me as [dbg bufs lm we clk tr];
  cbn [inputBuf inHeader inData arg outData status flatData outHeaderBytes
       startNs preWriteNs Debug buffers LatencyMap writeErrs clock trace] in *.

Lemma reply_header (n : Z) (h : OutHeader) (payload : list byte) :
  (Z.of_nat (length (zeros n)) <? sizeOfOutHeader) = false ->
  viewOutHeader
    (copy_at (Z.to_nat sizeOfOutHeader) (storeOutHeader (zeros n) h) payload)
  = {| oLength := oLength h mod 2 ^ 32;
       oStatus := to_int32 (oStatus h mod 2 ^ 32);
       oUnique := oUnique h mod 2 ^ 64 |}.
Proof.
  intros H. apply Z.ltb_ge in H. unfold sizeOfOutHeader in *.
  change (Z.to_nat 16) with 16%nat.
  apply viewOutHeader_stored. lia.
Qed.

Lemma reply_length (n : Z) (h : OutHeader) (payload : list byte) :
  (n <? 0) = false ->
  Z.of_nat (length (copy_at (Z.to_nat sizeOfOutHeader)
                            (storeOutHeader (zeros n) h) payload)) = n.
Proof.
  intros H. apply Z.ltb_ge in H.
  rewrite length_copy_at. unfold storeOutHeader. rewrite length_copy.
  apply length_zeros, H.
Qed.

Section Properties.

Variable getHandler : Z -> option operationHandler.
Variable operationName : Z -> string.

(** *** What [handle] leaves alone *)

(** [handle] adds events to the trace, none of them a read, and keeps
    the input buffer of the request. *)
Lemma handle_frame (req : request) (me : MountState) :
  exists evs,
    trace (finalMe (handle getHandler operationName (req, me))) = trace me ++ evs /\
    readBuffers evs = [] /\
    inputBuf (finalReq (handle getHandler operationName (req, me))) = inputBuf req.
Proof.
  open_state req me.
  go_run.
  all: rewrite <- ?app_assoc; cbn [app].
  all: try (eexists; split; [reflexivity | split; reflexivity]).
  all: exists []; rewrite app_nil_r; split; [reflexivity | split; reflexivity].
Qed.

Lemma discardRequest_frame (req : request) (me : MountState) :
  trace (finalMe (discardRequest operationName (req, me))) = trace me /\
  finalReq (discardRequest operationName (req, me)) = req.
Proof.
  open_state req me.
  go_run. all: split; reflexivity.
Qed.

(** Claim C1. Every reply that [handle] writes to the channel carries, in
    the correlation id field of its header, the correlation id of the
    header of the request it answers: whatever the registry, the handler,
    the debug flag, the latency map and the outcome of the write, the
    [Unique] read back from the reply bytes is the [Unique] laid over the
    input buffer. *)
Theorem reply_echoes_unique (req : request) (me : MountState)
    (e : Event) (b : list byte) :
  In e (newEvents me (finalMe (handle getHandler operationName (req, me)))) ->
  replyBytes e = Some b ->
  oUnique (viewOutHeader b) = Unique (viewInHeader (elems (inputBuf req))).
Proof.
  open_state req me.
  go_run.
  all: trace_norm; intros Hin Hb; cbn [In] in Hin.
  all: repeat match goal with
              | H : _ \/ _ |- _ => destruct H
              | H : False |- _ => destruct H
              end; subst e; cbn [replyBytes] in Hb; try discriminate Hb.
  all: injection Hb as <-.
  all: rewrite reply_header by first [assumption | apply header_room_ok].
  all: cbn [oUnique].
  all: apply Z.mod_small, Unique_range.
Qed.

(** Claim C2, as amended. A message shorter than the header is dropped:
    no reply is written and no handler is called. A message with a whole
    header whose opcode has a registry entry with a handler function, is
    not [FUSE_FORGET], and whose argument region is shorter than the
    [InputSize] of the entry, is answered (the request coming from the
    loop, with no flat data) by exactly one write of a bare header: 16
    bytes, declared length 16, status [-EIO], the correlation id of the
    request; the handler is not called. *)
Theorem malformed_message_reply (req : request) (me : MountState) :
  let hdr := viewInHeader (elems (inputBuf req)) in
  let region := skipn (Z.to_nat inHSize) (elems (inputBuf req)) in
  let evs := newEvents me (finalMe (handle getHandler operationName (req, me))) in
  (len (inputBuf req) < inHSize -> replies evs = [] /\ calls evs = []) /\
  (forall h f,
      inHSize <= len (inputBuf req) ->
      getHandler (Opcode hdr) = Some h ->
      Func h = Some f ->
      Opcode hdr <> FUSE_FORGET ->
      Z.of_nat (length region) < InputSize h ->
      flatData req = None ->
      exists b,
        replies evs = [EvWrite b] /\
        calls evs = [] /\
        Z.of_nat (length b) = sizeOfOutHeader /\
        viewOutHeader b
        = {| oLength := sizeOfOutHeader; oStatus := - EIO; oUnique := Unique hdr |}).
Proof.
  open_state req me. cbv zeta. split.
  - intros Hshort. apply Z.ltb_lt in Hshort.
    go_run_with ltac:(rewrite ?Hshort).
    all: trace_norm; split; reflexivity.
  - intros h f Hlen Hh Hf Hop Harg ->.
    apply Z.ltb_ge in Hlen. apply Z.ltb_lt in Harg. apply Z.eqb_neq in Hop.
    go_run_with ltac:(rewrite ?Hlen, ?Hh, ?Hf, ?Harg, ?Hop).
    all: trace_norm; cbn [replies calls filter isReply isCall].
    all: eexists; split; [reflexivity|]; split; [reflexivity|].
    all: rewrite reply_length by apply header_make_ok.
    all: rewrite reply_header by apply header_room_ok.
    all: cbn [oLength oStatus oUnique len_opt].
    all: split; [reflexivity|].
    all: rewrite (Z.mod_small (Unique _)) by apply Unique_range; reflexivity.
Qed.

(** Claim C3, where the code departs from it. With a latency map in
    place, [discardRequest] reads [req.inHeader.Opcode]; when no header
    was decoded the pointer is nil and the call panics. So [handle] panics
    on every message shorter than the header, and so does the bare
    [discardRequest] of the retry path. *)
Theorem short_message_panics_when_recording
    (req : request) (me : MountState) (m : LatencyMapT) :
  LatencyMap me = Some m ->
  inHeader req = None ->
  len (inputBuf req) < inHSize ->
  outcome (handle getHandler operationName (req, me)) = Panic NilDereference /\
  outcome (discardRequest operationName (req, me)) = Panic NilDereference.
Proof.
  open_state req me.
  intros -> -> Hshort. apply Z.ltb_lt in Hshort.
  split; go_run_with ltac:(rewrite ?Hshort); reflexivity.
Qed.

(** Without a latency map, a short message is dropped without harm. *)
Lemma short_message_dropped (req : request) (me : MountState) :
  LatencyMap me = None ->
  len (inputBuf req) < inHSize ->
  handle getHandler operationName (req, me)
  = (Val tt, (req, record (EvLog (LogShortHeader (elems (inputBuf req)))) me)).
Proof.
  open_state req me.
  intros -> Hshort. apply Z.ltb_lt in Hshort.
  go_run_with ltac:(rewrite ?Hshort); reflexivity.
Qed.

(** Claim C5, as amended. [serialize] returns and leaves a reply whose
    header declares: for a request with status [OK] and an output struct,
    header size + [OutputSize] + length of the flat data, the encoded
    buffer holding header and struct; for a request with any other
    status, header size + length of the flat data, the encoded buffer
    holding the header alone. The struct is left out of a failed reply,
    the flat data is not. Lengths are those a [uint32] can hold. *)
Theorem serialize_declared_length
    (h : operationHandler) (debug : bool) (req : request) (me : MountState)
    (hdr : InHeader) :
  inHeader req = Some hdr ->
  0 <= OutputSize h ->
  0 <= len_opt (flatData req) ->
  sizeOfOutHeader + OutputSize h + len_opt (flatData req) < 2 ^ 32 ->
  exists b,
    outcome (serialize operationName h debug (req, me)) = Val tt /\
    outHeaderBytes (finalReq (serialize operationName h debug (req, me))) = Some b /\
    (status req = OK -> outData req <> None ->
     oLength (viewOutHeader b)
     = sizeOfOutHeader + OutputSize h + len_opt (flatData req) /\
     Z.of_nat (length b) = sizeOfOutHeader + OutputSize h) /\
    (status req <> OK ->
     oLength (viewOutHeader b) = sizeOfOutHeader + len_opt (flatData req) /\
     Z.of_nat (length b) = sizeOfOutHeader).
Proof.
  open_state req me.
  intros -> Hout Hflat Hfit.
  assert (Hmake : (sizeOfOutHeader + OutputSize h <? 0) = false)
    by (apply Z.ltb_ge; unfold sizeOfOutHeader; lia).
  assert (Hroom : (Z.of_nat (length (zeros (sizeOfOutHeader + OutputSize h)))
                   <? sizeOfOutHeader) = false)
    by (apply Z.ltb_ge; rewrite length_zeros; unfold sizeOfOutHeader; lia).
  go_run_with ltac:(rewrite ?Hmake, ?Hroom).
  all: eexists; split; [reflexivity|]; split; [reflexivity|].
  all: rewrite ?reply_length, ?reply_header
         by first [assumption | apply header_make_ok | apply header_room_ok].
  all: cbn [oLength]; unfold to_uint32; rewrite Z.mod_mod by lia.
  all: rewrite Z.mod_small by (unfold sizeOfOutHeader in *; lia).
  all: split; [intros Hok Hod | intros Hst].
  all: try (apply Z.eqb_neq in Hst); try (apply Z.eqb_eq in Hok).
  all: try congruence.
  all: split; lia.
Qed.


(** Claim C6, as amended. For a message shorter than the header,
    [chopMessage] returns no handler and [handle] calls none. For a
    message with a whole header whose opcode has a registry entry with a
    handler function and whose argument region is shorter than the
    [InputSize] of the entry, [chopMessage] sets the status to [EIO],
    decodes no argument, and [handle] calls no handler and leaves the
    status at [EIO]. *)
Theorem short_message_not_dispatched (req : request) (me : MountState) :
  let hdr := viewInHeader (elems (inputBuf req)) in
  let region := skipn (Z.to_nat inHSize) (elems (inputBuf req)) in
  let evs := newEvents me (finalMe (handle getHandler operationName (req, me))) in
  (len (inputBuf req) < inHSize ->
   outcome (chopMessage getHandler (req, me)) = Val None /\ calls evs = []) /\
  (forall h f,
      inHSize <= len (inputBuf req) ->
      getHandler (Opcode hdr) = Some h ->
      Func h = Some f ->
      Z.of_nat (length region) < InputSize h ->
      outcome (chopMessage getHandler (req, me)) = Val (Some h) /\
      status (finalReq (chopMessage getHandler (req, me))) = EIO /\
      inData (finalReq (chopMessage getHandler (req, me))) = inData req /\
      calls evs = [] /\
      status (finalReq (handle getHandler operationName (req, me))) = EIO).
Proof.
  open_state req me. cbv zeta. split.
  - intros Hshort. apply Z.ltb_lt in Hshort. split.
    + go_run_with ltac:(rewrite ?Hshort). reflexivity.
    + go_run_with ltac:(rewrite ?Hshort).
      all: trace_norm; reflexivity.
  - intros h f Hlen Hh Hf Harg.
    apply Z.ltb_ge in Hlen. apply Z.ltb_lt in Harg.
    repeat split.
    1-3: go_run_with ltac:(rewrite ?Hlen, ?Hh, ?Hf, ?Harg); reflexivity.
    all: go_run_with ltac:(rewrite ?Hlen, ?Hh, ?Hf, ?Harg).
    all: trace_norm; reflexivity.
Qed.

(** Claim C7, where the code departs from it. For a message with a whole
    header whose opcode has no registry entry, [chopMessage] sets the
    status to [ENOSYS] and returns the nil handler, on which [handle]
    returns at once: the only event is the log line, no reply is encoded
    and none is written. *)
Theorem opcode_without_entry_gets_no_reply (req : request) (me : MountState) :
  let hdr := viewInHeader (elems (inputBuf req)) in
  let evs := newEvents me (finalMe (handle getHandler operationName (req, me))) in
  inHSize <= len (inputBuf req) ->
  getHandler (Opcode hdr) = None ->
  outcome (handle getHandler operationName (req, me)) = Val tt /\
  evs = [EvLog (LogUnknownOpcode (Opcode hdr))] /\
  status (finalReq (handle getHandler operationName (req, me))) = ENOSYS /\
  outHeaderBytes (finalReq (handle getHandler operationName (req, me))) = outHeaderBytes req.
Proof.
  open_state req me. cbv zeta.
  intros Hlen Hh. apply Z.ltb_ge in Hlen.
  repeat split.
  all: go_run_with ltac:(rewrite ?Hlen, ?Hh).
  all: trace_norm; reflexivity.
Qed.

(** An entry without a handler function is answered with [ENOSYS],
    unless the opcode is [FUSE_FORGET]. *)
Lemma opcode_without_func_gets_enosys
    (req : request) (me : MountState) (h : operationHandler) :
  let hdr := viewInHeader (elems (inputBuf req)) in
  let evs := newEvents me (finalMe (handle getHandler operationName (req, me))) in
  inHSize <= len (inputBuf req) ->
  getHandler (Opcode hdr) = Some h ->
  Func h = None ->
  Opcode hdr <> FUSE_FORGET ->
  flatData req = None ->
  exists b,
    replies evs = [EvWrite b] /\
    calls evs = [] /\
    Z.of_nat (length b) = sizeOfOutHeader /\
    viewOutHeader b
    = {| oLength := sizeOfOutHeader; oStatus := - ENOSYS;
         oUnique := Unique hdr |}.
Proof.
  open_state req me. cbv zeta.
  intros Hlen Hh Hf Hop ->.
  apply Z.ltb_ge in Hlen. apply Z.eqb_neq in Hop.
  go_run_with ltac:(rewrite ?Hlen, ?Hh, ?Hf, ?Hop).
  all: trace_norm; cbn [replies calls filter isReply isCall].
  all: eexists; split; [reflexivity|]; split; [reflexivity|].
  all: rewrite reply_length by apply header_make_ok.
  all: rewrite reply_header by apply header_room_ok.
  all: cbn [oLength oStatus oUnique len_opt].
  all: split; [reflexivity|].
  all: rewrite (Z.mod_small (Unique _)) by apply Unique_range; reflexivity.
Qed.

(** Claim C8. For a request whose header carries the opcode
    [FUSE_FORGET], [handle] writes nothing to the channel and encodes no
    reply ([outHeaderBytes] is left as it was), whatever the registry
    holds for the opcode, however long the argument is, and whatever the
    handler does. *)
Theorem forget_is_never_answered (req : request) (me : MountState) :
  Opcode (viewInHeader (elems (inputBuf req))) = FUSE_FORGET ->
  replies (newEvents me (finalMe (handle getHandler operationName (req, me)))) = [] /\
  outHeaderBytes (finalReq (handle getHandler operationName (req, me))) = outHeaderBytes req.
Proof.
  open_state req me.
  intros Hop.
  go_run_with ltac:(rewrite ?Hop).
  all: trace_norm; split; reflexivity.
Qed.

End Properties.

(** ** Buffers across the loop *)

Lemma bufSize_value : bufSize = 65536.
Proof. reflexivity. Qed.

Lemma takeBuffer_length (size : Z) (l : list (list byte)) b rest :
  BufferPool.takeBuffer size l = Some (b, rest) -> Z.of_nat (length b) = size.
Proof.
  revert b rest. induction l as [|x l IH]; intros b rest; simpl.
  - discriminate.
  - destruct (Z.of_nat (length x) =? size) eqn:E.
    + intros [= <- <-]. apply Z.eqb_eq, E.
    + destruct (BufferPool.takeBuffer size l) as [[b' rest']|]; [|discriminate].
      intros [= <- <-]. eapply IH. reflexivity.
Qed.

Lemma AllocBuffer_full (p : BufferPool.t) (size : Z) :
  0 <= size ->
  cap (fst (BufferPool.AllocBuffer p size)) = size /\
  len (fst (BufferPool.AllocBuffer p size)) = size.
Proof.
  intros H. unfold BufferPool.AllocBuffer.
  destruct (BufferPool.takeBuffer size (BufferPool.free p)) as [[b rest]|] eqn:E.
  - split; [|reflexivity]. apply (takeBuffer_length _ _ _ _ E).
  - split; [|reflexivity]. apply length_zeros, H.
Qed.

(** Claim C10. [newRequest] on an old request whose buffer has room for
    [bufSize] bytes returns a request on the same backing array,
    re-extended to length [bufSize]; the flat data of the old request is
    passed to [FreeBuffer] and nothing is allocated; the header, the
    argument pointer, the tail, the output struct, the flat data, the
    encoded reply and the two time stamps are empty, and the status is
    [OK]. *)
Theorem recycled_request_is_reset (old : request) (me : MountState) :
  bufSize <= cap (inputBuf old) ->
  exists req me',
    newRequest (Some old) me = (Val req, me') /\
    arr (inputBuf req) = arr (inputBuf old) /\
    len (inputBuf req) = bufSize /\
    me' = set_buffers (BufferPool.FreeBuffer (buffers me) (flatData old)) me /\
    BufferPool.created (buffers me') = BufferPool.created (buffers me) /\
    inHeader req = None /\ inData req = None /\ arg req = [] /\
    outData req = None /\ flatData req = None /\ outHeaderBytes req = None /\
    startNs req = 0 /\ preWriteNs req = 0 /\ status req = OK.
Proof.
  intros Hcap.
  assert (Hre : (0 <=? bufSize) && (bufSize <=? cap (inputBuf old)) = true).
  { apply andb_true_iff. split; [reflexivity | apply Z.leb_le, Hcap]. }
  unfold newRequest, bind, modifyState, reslice. rewrite Hre.
  eexists. eexists. split; [reflexivity|].
  destruct me as [dbg bufs lm we clk tr]. cbn.
  repeat split. destruct (flatData old); reflexivity.
Qed.

Lemma newRequest_full (lastReq : option request) (me : MountState) :
  holdsFullBuffer lastReq ->
  exists buf pool,
    newRequest lastReq me = (Val (requestLit OK buf), set_buffers pool me) /\
    cap buf = bufSize /\ len buf = bufSize.
Proof.
  intros Hwf. destruct lastReq as [old|]; simpl in Hwf.
  - assert (Hre : (0 <=? bufSize) && (bufSize <=? cap (inputBuf old)) = true).
    { apply andb_true_iff. split; [reflexivity | apply Z.leb_le; lia]. }
    unfold newRequest, bind, modifyState, reslice. rewrite Hre.
    eexists. eexists. split; [reflexivity|]. split; [exact Hwf | reflexivity].
  - unfold newRequest, bind, getState, modifyState, ret.
    pose proof (AllocBuffer_full (buffers me) bufSize) as Hfull.
    destruct (BufferPool.AllocBuffer (buffers me) bufSize) as [buf pool].
    eexists. eexists. split; [reflexivity|]. apply Hfull. rewrite bufSize_value; lia.
Qed.

(** The bytes a read stores fit the buffer it was given. *)
Lemma stored_fits (buf : slice) (data : list byte) :
  0 <= len buf <= cap buf ->
  let stored := firstn (Z.to_nat (len buf)) data in
  (0 <=? Z.of_nat (length stored))
  && (Z.of_nat (length stored) <=? cap (mkSlice (copy (arr buf) stored) (len buf)))
  = true.
Proof.
  intros H stored. apply andb_true_iff. split.
  - apply Z.leb_le. lia.
  - apply Z.leb_le. unfold cap. cbn [arr]. rewrite length_copy.
    unfold stored. rewrite length_firstn. unfold cap in H. lia.
Qed.

Lemma readRequest_full (buf : slice) (rd : ReadOutcome) (me : MountState) :
  cap buf = bufSize -> len buf = bufSize ->
  readRequest rd (requestLit OK buf, me)
  = (Val (rdErr rd),
     match LatencyMap me with
     | Some _ => (afterRead buf rd (clock me),
                  set_clock (clock me + 1) (record (EvRead buf) me))
     | None => (afterRead buf rd 0, record (EvRead buf) me)
     end).
Proof.
  intros Hcap Hlen.
  pose proof (stored_fits buf (rdData rd)) as Hfit. cbv zeta in Hfit.
  destruct me as [dbg bufs lm we clk tr].
  unfold readRequest, afterRead.
  destruct lm as [m|].
  all: cbv beta iota zeta delta
         [bind ret getReq getMe updReq updMe emit record Nanoseconds reslice
          fst snd inputBuf set_inputBuf set_startNs requestLit LatencyMap
          clock trace set_clock set_trace].
  all: rewrite Hfit by (rewrite Hcap, Hlen, bufSize_value; lia).
  all: reflexivity.
Qed.

Lemma withReq_bind {A B : Type} (req : request) (m : M St A) (k : A -> M St B)
    (me : MountState) :
  withReq req (bind m k) me
  = match m (req, me) with
    | (Val a, (req', me')) => withReq req' (k a) me'
    | (Panic why, (_, me')) => (Panic why, me')
    end.
Proof.
  unfold withReq, bind. destruct (m (req, me)) as [[a|why] [req' me']]; reflexivity.
Qed.

Section Loop.

Variable getHandler : Z -> option operationHandler.
Variable operationName : Z -> string.

(** A turn of the loop, once the request is renewed and the message is
    read: what is left is the classification of the error, or the call
    of [handle]. *)
Lemma loopBody_unfold (lastReq : option request) (rd : ReadOutcome)
    (me : MountState) :
  holdsFullBuffer lastReq ->
  exists buf req me',
    cap buf = bufSize /\ len buf = bufSize /\
    cap (inputBuf req) = bufSize /\
    inHeader req = None /\
    trace me' = trace me ++ [EvRead buf] /\
    LatencyMap me' = LatencyMap me /\
    loopBody getHandler operationName lastReq rd me
    = withReq req
        match rdErr rd with
        | Some errNo =>
            if errNo =? ENOENT then
              bind (discardRequest operationName) (fun _ => ret Continue)
            else if errNo =? ENODEV then ret Break
            else if errNo =? ENOSYS then ret Break
            else bind (updMe (record (EvLog (LogReadFailed errNo))))
                      (fun _ => ret Break)
        | None => bind (handle getHandler operationName) (fun _ => ret Continue)
        end
        me'.
Proof.
  intros Hwf.
  destruct (newRequest_full lastReq me Hwf) as (buf & pool & Hnew & Hcap & Hlen).
  exists buf.
  unfold loopBody. unfold bind at 1. rewrite Hnew.
  rewrite withReq_bind, readRequest_full by assumption.
  assert (Hc : forall t, cap (inputBuf (afterRead buf rd t)) = bufSize).
  { intros t. unfold afterRead, cap. cbn [inputBuf set_startNs requestLit arr].
    rewrite length_copy. exact Hcap. }
  destruct me as [dbg bufs lm we clk tr]. cbn [LatencyMap set_buffers].
  destruct lm; eexists; eexists.
  all: split; [exact Hcap|]; split; [exact Hlen|]; split; [apply Hc|].
  all: repeat split; reflexivity.
Qed.

(** Claim C4, where the code departs from it. With a latency map in
    place, a read that fails with [ENOENT] does not leave the worker
    running: the retry path calls [discardRequest] on a request without
    header, which panics, and the panic ends the loop. *)
Theorem transient_error_panics_when_recording
    (lastReq : option request) (rd : ReadOutcome) (me : MountState)
    (m : LatencyMapT) :
  holdsFullBuffer lastReq ->
  LatencyMap me = Some m ->
  rdErr rd = Some ENOENT ->
  outcome (loopBody getHandler operationName lastReq rd me)
  = Panic NilDereference /\
  forall rest,
    outcome (loopFrom getHandler operationName lastReq (rd :: rest) me)
    = Panic NilDereference.
Proof.
  intros Hwf Hlm Herr.
  destruct (loopBody_unfold lastReq rd me Hwf)
    as (buf & req2 & me2 & _ & _ & _ & Hhdr & _ & Hlm2 & Hbody).
  assert (Hp : outcome (loopBody getHandler operationName lastReq rd me)
               = Panic NilDereference).
  { rewrite Hbody, Herr, Z.eqb_refl. rewrite Hlm in Hlm2.
    open_state req2 me2. subst.
    unfold withReq. go_unfold. reflexivity. }
  split; [exact Hp|].
  intros rest. unfold outcome in *. cbn [loopFrom]. unfold bind at 1.
  destruct (loopBody getHandler operationName lastReq rd me) as [[r|w] me'];
    cbn [fst] in *.
  - discriminate Hp.
  - injection Hp as ->. reflexivity.
Qed.

(** Without a latency map the read failures are told apart as the loop
    means to: the transient one is retried, the others end the loop, and
    only an unexpected one is logged. *)
Lemma read_failure_classes
    (lastReq : option request) (rd : ReadOutcome) (me : MountState) (errNo : Z) :
  holdsFullBuffer lastReq ->
  LatencyMap me = None ->
  rdErr rd = Some errNo ->
  exists buf req,
    outcome (loopBody getHandler operationName lastReq rd me)
    = Val (if errNo =? ENOENT then Continue else Break, req) /\
    newEvents me (snd (loopBody getHandler operationName lastReq rd me))
    = EvRead buf ::
      (if (errNo =? ENOENT) || (errNo =? ENODEV) || (errNo =? ENOSYS) then []
       else [EvLog (LogReadFailed errNo)]) /\
    LatencyMap (snd (loopBody getHandler operationName lastReq rd me)) = None.
Proof.
  intros Hwf Hlm Herr.
  destruct (loopBody_unfold lastReq rd me Hwf)
    as (buf & req2 & me2 & _ & _ & _ & _ & Htr & Hlm2 & Hbody).
  rewrite Hlm in Hlm2.
  exists buf, req2. rewrite Hbody, Herr. unfold newEvents.
  generalize dependent (trace me). intros tr0 Htr.
  open_state req2 me2. subst.
  destruct (errNo =? ENOENT); [|destruct (errNo =? ENODEV);
                                 [|destruct (errNo =? ENOSYS)]].
  all: cbn [orb]; unfold withReq; go_unfold.
  all: rewrite <- ?app_assoc, skipn_app_exact.
  all: repeat split; reflexivity.
Qed.

(** Every turn hands one buffer to the read, of full length and capacity,
    and the request it leaves holds a buffer of that capacity. *)
Lemma loopBody_reads (lastReq : option request) (rd : ReadOutcome)
    (me : MountState) :
  holdsFullBuffer lastReq ->
  exists buf evs,
    trace (snd (loopBody getHandler operationName lastReq rd me))
    = trace me ++ EvRead buf :: evs /\
    cap buf = bufSize /\ len buf = bufSize /\
    readBuffers evs = [] /\
    forall flow req,
      fst (loopBody getHandler operationName lastReq rd me) = Val (flow, req) ->
      holdsFullBuffer (Some req).
Proof.
  intros Hwf.
  destruct (loopBody_unfold lastReq rd me Hwf)
    as (buf & req2 & me2 & Hcap & Hlen & Hcap2 & _ & Htr & _ & Hbody).
  exists buf. rewrite Hbody.
  destruct (rdErr rd) as [errNo|].
  - destruct (discardRequest_frame operationName req2 me2) as [Hd1 Hd2].
    unfold finalMe, finalReq in Hd1, Hd2.
    destruct (errNo =? ENOENT); [|destruct (errNo =? ENODEV);
                                   [|destruct (errNo =? ENOSYS)]].
    + unfold withReq, bind, ret.
      destruct (discardRequest operationName (req2, me2)) as [[[]|w] [req3 me3]];
        cbn [fst snd] in *; subst req3; rewrite Hd1, Htr, <- ?app_assoc.
      all: exists []; repeat split; try assumption; try reflexivity.
      * intros flow req [= _ <-]. exact Hcap2.
      * discriminate.
    + exists []. unfold withReq, ret. cbn [fst snd]. rewrite Htr, <- ?app_assoc.
      repeat split; try assumption; try reflexivity.
      intros flow req [= _ <-]. exact Hcap2.
    + exists []. unfold withReq, ret. cbn [fst snd]. rewrite Htr, <- ?app_assoc.
      repeat split; try assumption; try reflexivity.
      intros flow req [= _ <-]. exact Hcap2.
    + exists [EvLog (LogReadFailed errNo)].
      unfold withReq, bind, ret, updMe, record. cbn [fst snd trace set_trace].
      rewrite Htr, <- ?app_assoc.
      repeat split; try assumption; try reflexivity.
      intros flow req [= _ <-]. exact Hcap2.
  - destruct (handle_frame getHandler operationName req2 me2)
      as (evs & Hh1 & Hh2 & Hh3).
    unfold finalMe, finalReq in Hh1, Hh3.
    exists evs. unfold withReq, bind, ret.
    destruct (handle getHandler operationName (req2, me2)) as [[[]|w] [req3 me3]];
      cbn [fst snd] in *; rewrite Hh1, Htr, <- ?app_assoc.
    all: repeat split; try assumption; try reflexivity.
    + intros flow req [= _ <-]. cbn [holdsFullBuffer]. rewrite Hh3. exact Hcap2.
    + discriminate.
Qed.

Lemma readBuffers_app (a b : list Event) :
  readBuffers (a ++ b) = readBuffers a ++ readBuffers b.
Proof.
  induction a as [|e a IH]; [reflexivity|].
  destruct e; cbn [app readBuffers]; rewrite IH; reflexivity.
Qed.



End Loop.

(** ** The properties at work on the fixture *)

Lemma reply_echoes_unique_witness :
  oUnique (viewOutHeader Fixture.lookupReply)
  = Unique (viewInHeader (elems (inputBuf (Fixture.received Fixture.lookupMsg)))).
Proof.
  apply (reply_echoes_unique Fixture.getHandler Fixture.operationName
           (Fixture.received Fixture.lookupMsg) NewMountState
           (EvWrite Fixture.lookupReply) Fixture.lookupReply).
  - vm_compute. right. left. reflexivity.
  - reflexivity.
Defined.

(** A message shorter than the header is logged and dropped: nothing is
    written to the channel. *)
Lemma short_header_is_not_answered :
  Z.of_nat (length Fixture.shortMsg) < inHSize /\
  replies
    (newEvents NewMountState
       (finalMe (handle Fixture.getHandler Fixture.operationName
                   (Fixture.received Fixture.shortMsg, NewMountState))))
  = [].
Proof. split; vm_compute; reflexivity. Qed.

Lemma malformed_message_reply_witness :
  (replies
     (newEvents NewMountState
        (finalMe (handle Fixture.getHandler Fixture.operationName
                    (Fixture.received Fixture.shortMsg, NewMountState)))) = [] /\
   calls
     (newEvents NewMountState
        (finalMe (handle Fixture.getHandler Fixture.operationName
                    (Fixture.received Fixture.shortMsg, NewMountState)))) = []) /\
  (exists b,
     replies
       (newEvents NewMountState
          (finalMe (handle Fixture.getHandler Fixture.operationName
                      (Fixture.received Fixture.shortReadMsg, NewMountState))))
     = [EvWrite b] /\
     calls
       (newEvents NewMountState
          (finalMe (handle Fixture.getHandler Fixture.operationName
                      (Fixture.received Fixture.shortReadMsg, NewMountState))))
     = [] /\
     Z.of_nat (length b) = sizeOfOutHeader /\
     viewOutHeader b
     = {| oLength := sizeOfOutHeader; oStatus := - EIO; oUnique := 80 |}).
Proof.
  split.
  - apply (proj1 (malformed_message_reply Fixture.getHandler Fixture.operationName
                    (Fixture.received Fixture.shortMsg) NewMountState)).
    vm_compute. reflexivity.
  - eapply (proj2 (malformed_message_reply Fixture.getHandler Fixture.operationName
                     (Fixture.received Fixture.shortReadMsg) NewMountState)).
    + vm_compute. discriminate.
    + vm_compute. reflexivity.
    + reflexivity.
    + vm_compute. discriminate.
    + vm_compute. reflexivity.
    + reflexivity.
Defined.

Lemma short_message_panics_when_recording_witness :
  outcome (handle Fixture.getHandler Fixture.operationName
             (Fixture.received Fixture.shortMsg, Fixture.recording))
  = Panic NilDereference /\
  outcome (discardRequest Fixture.operationName
             (Fixture.received Fixture.shortMsg, Fixture.recording))
  = Panic NilDereference.
Proof.
  apply (short_message_panics_when_recording Fixture.getHandler
           Fixture.operationName (Fixture.received Fixture.shortMsg)
           Fixture.recording []).
  - reflexivity.
  - reflexivity.
  - vm_compute. reflexivity.
Defined.

Lemma transient_error_panics_when_recording_witness :
  outcome (loopBody Fixture.getHandler Fixture.operationName None
             (Fixture.fails ENOENT) Fixture.recording)
  = Panic NilDereference /\
  outcome (loop Fixture.getHandler Fixture.operationName
             [Fixture.fails ENOENT; Fixture.delivers Fixture.lookupMsg]
             Fixture.recording)
  = Panic NilDereference.
Proof.
  destruct (transient_error_panics_when_recording Fixture.getHandler
              Fixture.operationName None (Fixture.fails ENOENT)
              Fixture.recording []) as [Hbody Hloop].
  - exact I.
  - reflexivity.
  - reflexivity.
  - split; [exact Hbody | apply Hloop].
Defined.

(** A handler that fails and leaves flat data: the reply declares the
    header and the three flat bytes. *)
Lemma failed_reply_counts_flat_data :
  map (fun e =>
         option_map (fun b => (oStatus (viewOutHeader b), oLength (viewOutHeader b)))
                    (replyBytes e))
      (replies
         (newEvents NewMountState
            (finalMe (handle Fixture.getHandler Fixture.operationName
                        (Fixture.received Fixture.readMsg, NewMountState)))))
  = [Some (- EIO, sizeOfOutHeader + 3)].
Proof. vm_compute. reflexivity. Qed.

Lemma serialize_declared_length_witness :
  exists b,
    outcome (serialize Fixture.operationName
               (mkOperationHandler None 0 8) false
               (Fixture.lookupDone, NewMountState)) = Val tt /\
    outHeaderBytes
      (finalReq (serialize Fixture.operationName
                   (mkOperationHandler None 0 8) false
                   (Fixture.lookupDone, NewMountState))) = Some b /\
    (status Fixture.lookupDone = OK -> outData Fixture.lookupDone <> None ->
     oLength (viewOutHeader b) = sizeOfOutHeader + 8 + 0 /\
     Z.of_nat (length b) = sizeOfOutHeader + 8) /\
    (status Fixture.lookupDone <> OK ->
     oLength (viewOutHeader b) = sizeOfOutHeader + 0 /\
     Z.of_nat (length b) = sizeOfOutHeader).
Proof.
  apply (serialize_declared_length Fixture.operationName
           (mkOperationHandler None 0 8) false Fixture.lookupDone NewMountState
           (viewInHeader Fixture.lookupMsg)).
  - reflexivity.
  - vm_compute. discriminate.
  - vm_compute. discriminate.
  - vm_compute. reflexivity.
Defined.

(** [BMAP] has a 16-byte argument and no handler function: a message
    with 8 bytes of argument gets [ENOSYS], not [EIO]. *)
Lemma short_argument_without_func_is_enosys :
  option_map InputSize (Fixture.getHandler Fixture.BMAP) = Some 16 /\
  Z.of_nat (length (skipn (Z.to_nat inHSize) Fixture.shortBmapMsg)) = 8 /\
  status
    (finalReq (chopMessage Fixture.getHandler
                 (Fixture.received Fixture.shortBmapMsg, NewMountState)))
  <> EIO.
Proof. repeat split; vm_compute; discriminate. Qed.

Lemma short_message_not_dispatched_witness :
  (outcome (chopMessage Fixture.getHandler
              (Fixture.received Fixture.shortMsg, NewMountState)) = Val None /\
   calls
     (newEvents NewMountState
        (finalMe (handle Fixture.getHandler Fixture.operationName
                    (Fixture.received Fixture.shortMsg, NewMountState)))) = []) /\
  (status
     (finalReq (chopMessage Fixture.getHandler
                  (Fixture.received Fixture.shortReadMsg, NewMountState))) = EIO /\
   calls
     (newEvents NewMountState
        (finalMe (handle Fixture.getHandler Fixture.operationName
                    (Fixture.received Fixture.shortReadMsg, NewMountState)))) = []).
Proof.
  split.
  - apply (proj1 (short_message_not_dispatched Fixture.getHandler
                    Fixture.operationName
                    (Fixture.received Fixture.shortMsg) NewMountState)).
    vm_compute. reflexivity.
  - edestruct (proj2 (short_message_not_dispatched Fixture.getHandler
                        Fixture.operationName
                        (Fixture.received Fixture.shortReadMsg) NewMountState))
      as (_ & Hst & _ & Hcalls & _).
    + vm_compute. discriminate.
    + vm_compute. reflexivity.
    + reflexivity.
    + vm_compute. reflexivity.
    + split; [exact Hst | exact Hcalls].
Defined.

Lemma opcode_without_entry_gets_no_reply_witness :
  outcome (handle Fixture.getHandler Fixture.operationName
             (Fixture.received Fixture.unknownMsg, NewMountState)) = Val tt /\
  newEvents NewMountState
    (finalMe (handle Fixture.getHandler Fixture.operationName
                (Fixture.received Fixture.unknownMsg, NewMountState)))
  = [EvLog (LogUnknownOpcode 99)] /\
  status (finalReq (handle Fixture.getHandler Fixture.operationName
                      (Fixture.received Fixture.unknownMsg, NewMountState)))
  = ENOSYS /\
  outHeaderBytes
    (finalReq (handle Fixture.getHandler Fixture.operationName
                 (Fixture.received Fixture.unknownMsg, NewMountState)))
  = None.
Proof.
  apply (opcode_without_entry_gets_no_reply Fixture.getHandler
           Fixture.operationName (Fixture.received Fixture.unknownMsg)
           NewMountState).
  - vm_compute. discriminate.
  - vm_compute. reflexivity.
Defined.

Lemma forget_is_never_answered_witness :
  replies
    (newEvents NewMountState
       (finalMe (handle Fixture.getHandler Fixture.operationName
                   (Fixture.received Fixture.forgetMsg, NewMountState)))) = [] /\
  outHeaderBytes
    (finalReq (handle Fixture.getHandler Fixture.operationName
                 (Fixture.received Fixture.forgetMsg, NewMountState))) = None.
Proof.
  apply (forget_is_never_answered Fixture.getHandler Fixture.operationName
           (Fixture.received Fixture.forgetMsg) NewMountState).
  vm_compute. reflexivity.
Defined.



Lemma recycled_request_is_reset_witness :
  exists req me',
    newRequest (Some Fixture.used) NewMountState = (Val req, me') /\
    arr (inputBuf req) = arr (inputBuf Fixture.used) /\
    len (inputBuf req) = bufSize /\
    me' = set_buffers
            (BufferPool.FreeBuffer (buffers NewMountState) (flatData Fixture.used))
            NewMountState /\
    BufferPool.created (buffers me') = BufferPool.created (buffers NewMountState) /\
    inHeader req = None /\ inData req = None /\ arg req = [] /\
    outData req = None /\ flatData req = None /\ outHeaderBytes req = None /\
    startNs req = 0 /\ preWriteNs req = 0 /\ status req = OK.
Proof.
  apply (recycled_request_is_reset Fixture.used NewMountState).
  vm_compute. discriminate.
Defined.

(** * Further properties *)

(** ** File names *)

Lemma isNul_true (c : byte) : isNul c = true -> c = Byte.x00.
Proof. unfold isNul. intros H. apply Byte.byte_dec_bl in H. exact H. Qed.

Lemma dropNuls_split (s : list byte) :
  exists k, s = repeat Byte.x00 k ++ dropNuls s.
Proof.
  induction s as [|c s [k IH]].
  - exists O. reflexivity.
  - cbn [dropNuls]. destruct (isNul c) eqn:E.
    + exists (S k). apply isNul_true in E. subst c. cbn. f_equal. exact IH.
    + exists O. reflexivity.
Qed.

Lemma dropNuls_head (s : list byte) :
  forall c rest, dropNuls s = c :: rest -> isNul c = false.
Proof.
  induction s as [|d s IH]; intros c rest; cbn [dropNuls].
  - discriminate.
  - destruct (isNul d) eqn:E.
    + apply IH.
    + intros [= <- _]. exact E.
Qed.

Lemma rev_repeat {A : Type} (x : A) (k : nat) : rev (repeat x k) = repeat x k.
Proof.
  induction k as [|k IH]; [reflexivity|].
  cbn [repeat rev]. rewrite IH. symmetry. apply repeat_cons.
Qed.

Lemma dropNuls_repeat (k : nat) (l : list byte) :
  dropNuls (repeat Byte.x00 k ++ l) = dropNuls l.
Proof. induction k as [|k IH]; [reflexivity | exact IH]. Qed.

(** [filename] cuts the NUL bytes at the end of the tail, all of them
    and nothing else: the tail is the name followed by NUL bytes only,
    and the name does not end in a NUL byte. *)
Theorem filename_strips_trailing_nuls (req : request) :
  (exists k, arg req = filename req ++ repeat Byte.x00 k) /\
  (forall front c, filename req = front ++ [c] -> c <> Byte.x00).
Proof.
  unfold filename, TrimRightNul. split.
  - destruct (dropNuls_split (rev (arg req))) as [k Hk].
    exists k. rewrite <- (rev_involutive (arg req)) at 1.
    rewrite Hk at 1. rewrite rev_app_distr, rev_repeat. reflexivity.
  - intros front c H.
    apply (f_equal (@rev byte)) in H.
    rewrite rev_involutive, rev_app_distr in H. cbn in H.
    apply dropNuls_head in H. intros ->. discriminate H.
Qed.

(** A name that does not end in a NUL byte comes back from the tail the
    kernel sends for it, whatever the number of NUL bytes after it. *)
Theorem filename_of_terminated_name (req : request) (name : list byte) (k : nat) :
  arg req = name ++ repeat Byte.x00 k ->
  (forall front c, name = front ++ [c] -> c <> Byte.x00) ->
  filename req = name.
Proof.
  intros Harg Hname. unfold filename, TrimRightNul. rewrite Harg.
  rewrite rev_app_distr, rev_repeat.
  rewrite dropNuls_repeat.
  destruct (rev name) as [|c rest] eqn:E.
  - apply (f_equal (@rev byte)) in E. rewrite rev_involutive in E. subst name.
    reflexivity.
  - assert (Hc : c <> Byte.x00).
    { apply (Hname (rev rest)).
      rewrite <- (rev_involutive name), E. reflexivity. }
    cbn [dropNuls]. destruct (isNul c) eqn:Ec.
    + apply isNul_true in Ec. contradiction.
    + rewrite <- E. apply rev_involutive.
Qed.

Lemma cutNul_nonempty (cuts : nat) (s : list byte) : cutNul cuts s <> [].
Proof.
  destruct s as [|c s]; [discriminate|].
  destruct cuts as [|cuts]; cbn [cutNul]; [discriminate|].
  destruct (isNul c); [discriminate|].
  destruct (cutNul (S cuts) s); discriminate.
Qed.

Lemma joinNul_cons (p : list byte) (ps : list (list byte)) :
  ps <> [] -> joinNul (p :: ps) = p ++ Byte.x00 :: joinNul ps.
Proof. destruct ps; [contradiction | reflexivity]. Qed.

Lemma joinNul_cutNul (s : list byte) : forall cuts, joinNul (cutNul cuts s) = s.
Proof.
  induction s as [|c s IH]; intros cuts; [reflexivity|].
  destruct cuts as [|cuts]; cbn [cutNul]; [reflexivity|].
  destruct (isNul c) eqn:E.
  - rewrite joinNul_cons by apply cutNul_nonempty.
    apply isNul_true in E. subst c. cbn [app]. f_equal. apply IH.
  - pose proof (cutNul_nonempty (S cuts) s) as Hne.
    specialize (IH (S cuts)).
    destruct (cutNul (S cuts) s) as [|p ps]; [contradiction|].
    destruct ps as [|q ps].
    + cbn in *. f_equal. exact IH.
    + cbn [joinNul] in *. cbn [app]. f_equal. exact IH.
Qed.

Lemma length_cutNul (s : list byte) :
  forall cuts, length (cutNul cuts s) = S (Nat.min cuts (countNul s)).
Proof.
  induction s as [|c s IH]; intros cuts.
  - cbn. rewrite Nat.min_0_r. reflexivity.
  - destruct cuts as [|cuts]; cbn [cutNul countNul]; [reflexivity|].
    destruct (isNul c) eqn:E.
    + cbn [length]. rewrite IH. reflexivity.
    + specialize (IH (S cuts)).
      destruct (cutNul (S cuts) s) as [|p ps]; [discriminate IH|].
      cbn [length] in *. exact IH.
Qed.

(** [filenames] loses nothing: for a count other than 0, the pieces
    joined by NUL bytes are the tail again. The number of pieces is the
    number of NUL bytes plus one, cut down to [count] when [count] is
    positive; a count of 0 gives no piece at all. *)
Theorem filenames_join (req : request) (count : Z) :
  (count <> 0 -> joinNul (filenames req count) = arg req) /\
  (0 < count ->
   Z.of_nat (length (filenames req count))
   = Z.min count (Z.of_nat (countNul (arg req)) + 1)) /\
  (count < 0 ->
   length (filenames req count) = S (countNul (arg req))) /\
  filenames req 0 = [].
Proof.
  unfold filenames, SplitNul. repeat split.
  - intros H. apply Z.eqb_neq in H. rewrite H.
    destruct (count <? 0); apply joinNul_cutNul.
  - intros H.
    destruct (count =? 0) eqn:E0; [apply Z.eqb_eq in E0; lia|].
    destruct (count <? 0) eqn:E1; [apply Z.ltb_lt in E1; lia|].
    rewrite length_cutNul. lia.
  - intros H.
    destruct (count =? 0) eqn:E0; [apply Z.eqb_eq in E0; lia|].
    destruct (count <? 0) eqn:E1; [|apply Z.ltb_ge in E1; lia].
    rewrite length_cutNul, Nat.min_id. reflexivity.
Qed.

Lemma cutNul_front (s : list byte) :
  forall cuts p, In p (removelast (cutNul cuts s)) -> countNul p = O.
Proof.
  induction s as [|c s IH]; intros cuts p.
  - cbn. intros [].
  - destruct cuts as [|cuts]; cbn [cutNul]; [cbn; intros []|].
    destruct (isNul c) eqn:E.
    + pose proof (cutNul_nonempty cuts s) as Hne.
      specialize (IH cuts).
      destruct (cutNul cuts s) as [|q qs]; [contradiction|].
      cbn [removelast]. intros [<-|Hp]; [reflexivity | apply IH, Hp].
    + pose proof (cutNul_nonempty (S cuts) s) as Hne.
      specialize (IH (S cuts)).
      destruct (cutNul (S cuts) s) as [|q qs]; [contradiction|].
      destruct qs as [|r qs]; [cbn; intros []|].
      cbn [removelast] in *. intros [<-|Hp].
      * cbn [countNul]. rewrite E. apply IH. left. reflexivity.
      * apply IH. right. exact Hp.
Qed.

Lemma cutNul_last (s : list byte) :
  forall cuts, countNul (last (cutNul cuts s) []) = (countNul s - cuts)%nat.
Proof.
  induction s as [|c s IH]; intros cuts; [reflexivity|].
  destruct cuts as [|cuts]; cbn [cutNul]; [cbn [last]; lia|].
  destruct (isNul c) eqn:E.
  - pose proof (cutNul_nonempty cuts s) as Hne.
    specialize (IH cuts).
    destruct (cutNul cuts s) as [|q qs]; [contradiction|].
    cbn [last countNul] in *. rewrite E, IH. reflexivity.
  - pose proof (cutNul_nonempty (S cuts) s) as Hne.
    specialize (IH (S cuts)).
    destruct (cutNul (S cuts) s) as [|q qs]; [contradiction|].
    cbn [countNul]. rewrite E.
    destruct qs as [|r qs]; cbn [last countNul] in *; rewrite ?E; exact IH.
Qed.

(** Every piece of [filenames] but the last is free of NUL bytes. The
    last piece is the uncut rest of the tail: it is free of NUL bytes
    when [count] is negative or exceeds the number of NUL bytes in the
    tail, and otherwise keeps the separators that were not used. *)
Theorem filenames_pieces (req : request) (count : Z) :
  (forall p, In p (removelast (filenames req count)) -> countNul p = O) /\
  (count < 0 \/ Z.of_nat (countNul (arg req)) < count ->
   forall p, In p (filenames req count) -> countNul p = O) /\
  (0 < count <= Z.of_nat (countNul (arg req)) ->
   countNul (last (filenames req count) [])
   = (countNul (arg req) - Z.to_nat (count - 1))%nat).
Proof.
  unfold filenames, SplitNul.
  destruct (count =? 0) eqn:E0.
  { apply Z.eqb_eq in E0. repeat split; cbn; intros; try contradiction; lia. }
  apply Z.eqb_neq in E0.
  set (cuts := if count <? 0 then countNul (arg req) else Z.to_nat (count - 1)).
  replace (if count <? 0 then cutNul (countNul (arg req)) (arg req)
           else cutNul (Z.to_nat (count - 1)) (arg req))
    with (cutNul cuts (arg req)) by (unfold cuts; destruct (count <? 0); reflexivity).
  split; [apply cutNul_front|]. split.
  - intros Hall p Hp.
    assert (Hcuts : (countNul (arg req) <= cuts)%nat).
    { unfold cuts. destruct (count <? 0) eqn:E1; [lia|].
      apply Z.ltb_ge in E1. lia. }
    rewrite (app_removelast_last [] (cutNul_nonempty cuts (arg req))) in Hp.
    apply in_app_or in Hp. destruct Hp as [Hp|[<-|[]]].
    + apply (cutNul_front _ _ _ Hp).
    + rewrite cutNul_last. lia.
  - intros Hfew. rewrite cutNul_last. unfold cuts.
    destruct (count <? 0) eqn:E1; [apply Z.ltb_lt in E1; lia | reflexivity].
Qed.

(** ** Decoding and answering a request *)

(** The reply buffer that [serialize] fills: the header followed by the
    struct, when the struct has the size the buffer was made for. *)
Lemma reply_bytes (h : OutHeader) (d : list byte) :
  copy_at (Z.to_nat sizeOfOutHeader)
          (storeOutHeader (zeros (sizeOfOutHeader + Z.of_nat (length d))) h)
          (firstn (Z.to_nat (Z.of_nat (length d))) d)
  = bytesOutHeader h ++ d.
Proof.
  unfold sizeOfOutHeader. change (Z.to_nat 16) with 16%nat.
  rewrite Nat2Z.id, firstn_all.
  assert (Hz : zeros (16 + Z.of_nat (length d))
               = repeat Byte.x00 16 ++ repeat Byte.x00 (length d)).
  { unfold zeros. rewrite <- repeat_app. f_equal. lia. }
  unfold storeOutHeader. rewrite Hz.
  rewrite copy_prefix
    by (rewrite length_bytesOutHeader, length_app, !repeat_length; lia).
  rewrite length_bytesOutHeader.
  rewrite skipn_app, repeat_length. change (16 - 16)%nat with 0%nat.
  rewrite skipn_all2 by (rewrite repeat_length; lia). cbn [app skipn].
  unfold copy_at.
  rewrite firstn_app, length_bytesOutHeader. change (16 - 16)%nat with 0%nat.
  rewrite <- (length_bytesOutHeader h) at 1. rewrite firstn_all.
  cbn [firstn]. rewrite app_nil_r.
  rewrite skipn_app, length_bytesOutHeader. change (16 - 16)%nat with 0%nat.
  rewrite <- (length_bytesOutHeader h) at 1. rewrite skipn_all. cbn [app skipn].
  unfold copy. rewrite repeat_length, firstn_all.
  rewrite <- (repeat_length Byte.x00 (length d)) at 1. rewrite skipn_all.
  rewrite app_nil_r. reflexivity.
Qed.

(** Brings a request built with the setters to the form the symbolic
    execution gives it. *)
Ltac req_norm_in H :=
  cbv beta iota zeta delta
    [inputBuf inHeader inData arg outData status flatData outHeaderBytes
     startNs preWriteNs
     set_inputBuf set_inHeader set_inData set_arg set_outData set_status
     set_flatData set_outHeaderBytes set_startNs set_preWriteNs] in H.

Section Answering.

Variable getHandler : Z -> option operationHandler.
Variable operationName : Z -> string.

(** [chopMessage] on a well-formed message: it returns the entry of the
    opcode, touches neither the status nor the mount state, and cuts the
    argument region without losing a byte: the fixed input has the size
    the entry asks for, and followed by the tail it is the region. An
    entry without fixed input leaves the whole region as the tail. *)
Theorem chopMessage_splits_region
    (req : request) (me : MountState) (h : operationHandler)
    (f : request -> handlerResult) :
  let hdr := viewInHeader (elems (inputBuf req)) in
  let region := skipn (Z.to_nat inHSize) (elems (inputBuf req)) in
  inHSize <= len (inputBuf req) ->
  getHandler (Opcode hdr) = Some h ->
  Func h = Some f ->
  InputSize h <= Z.of_nat (length region) ->
  chopMessage getHandler (req, me) = (Val (Some h), (decoded (InputSize h) req, me)) /\
  inHeader (decoded (InputSize h) req) = Some hdr /\
  status (decoded (InputSize h) req) = status req /\
  (0 < InputSize h ->
   exists fixed,
     inData (decoded (InputSize h) req) = Some fixed /\
     Z.of_nat (length fixed) = InputSize h /\
     fixed ++ arg (decoded (InputSize h) req) = region) /\
  (InputSize h <= 0 ->
   inData (decoded (InputSize h) req) = inData req /\
   arg (decoded (InputSize h) req) = region).
Proof.
  cbv zeta. intros Hlen Hh Hf Harg.
  apply Z.ltb_ge in Hlen. pose proof Harg as Hfit. apply Z.ltb_ge in Harg.
  unfold decoded.
  destruct (0 <? InputSize h) eqn:Epos.
  - split.
    { open_state req me.
      go_run_with ltac:(rewrite ?Hlen, ?Hh, ?Hf, ?Harg, ?Epos). reflexivity. }
    destruct req as [ib ih id a od st fd ohb sn pn].
    cbn [inHeader status inData arg inputBuf set_arg set_inData set_inHeader] in *.
    split; [reflexivity|]. split; [reflexivity|]. split.
    + intros _. eexists. split; [reflexivity|]. split.
      * rewrite length_firstn. apply Z.ltb_lt in Epos. lia.
      * apply firstn_skipn.
    + intros Hneg. apply Z.ltb_lt in Epos. lia.
  - split.
    { open_state req me.
      go_run_with ltac:(rewrite ?Hlen, ?Hh, ?Hf, ?Harg, ?Epos). reflexivity. }
    destruct req as [ib ih id a od st fd ohb sn pn].
    cbn [inHeader status inData arg inputBuf set_arg set_inData set_inHeader] in *.
    split; [reflexivity|]. split; [reflexivity|]. split.
    + intros Hpos. apply Z.ltb_ge in Epos. lia.
    + intros _. split; reflexivity.
Qed.

(** A well-formed request, other than a forget, whose handler succeeds
    is called once and answered once: the reply is the header followed by
    exactly the struct the handler left, the header declares the length
    of header, struct and flat data together, status 0 and the
    correlation id of the request, and flat data goes out as the second
    part of a vectored write. *)
Theorem handle_answers_success
    (req : request) (me : MountState) (h : operationHandler)
    (f : request -> handlerResult)
    (od : option (list byte)) (flat : option slice) :
  let hdr := viewInHeader (elems (inputBuf req)) in
  let region := skipn (Z.to_nat inHSize) (elems (inputBuf req)) in
  let evs := newEvents me (finalMe (handle getHandler operationName (req, me))) in
  inHSize <= len (inputBuf req) ->
  getHandler (Opcode hdr) = Some h ->
  Func h = Some f ->
  InputSize h <= Z.of_nat (length region) ->
  status req = OK ->
  Opcode hdr <> FUSE_FORGET ->
  f (decoded (InputSize h) req) = mkHandlerResult OK od flat ->
  (od <> None -> Z.of_nat (length (structBytes od)) = OutputSize h) ->
  0 <= len_opt flat ->
  sizeOfOutHeader + Z.of_nat (length (structBytes od)) + len_opt flat < 2 ^ 32 ->
  outcome (handle getHandler operationName (req, me)) = Val tt /\
  calls evs = [EvCall (decoded (InputSize h) req)] /\
  replies evs
  = [replyWrite
       (bytesOutHeader
          {| oLength := sizeOfOutHeader + Z.of_nat (length (structBytes od))
                        + len_opt flat;
             oStatus := 0;
             oUnique := Unique hdr |}
        ++ structBytes od)
       flat].
Proof.
  cbv zeta. intros Hlen Hh Hf Harg Hst Hop Hres Hsize Hflat Hfit.
  apply Z.ltb_ge in Hlen. apply Z.ltb_ge in Harg. apply Z.eqb_neq in Hop.
  unfold decoded in *.
  open_state req me. subst st.
  assert (Hmake : forall n : nat, (sizeOfOutHeader + Z.of_nat n <? 0) = false)
    by (intros n; apply Z.ltb_ge; unfold sizeOfOutHeader; lia).
  assert (Hroom : forall n : nat,
             (Z.of_nat (length (zeros (sizeOfOutHeader + Z.of_nat n)))
              <? sizeOfOutHeader) = false).
  { intros n. apply Z.ltb_ge. rewrite length_zeros; unfold sizeOfOutHeader; lia. }
  assert (Hlenq : to_uint32 (sizeOfOutHeader + Z.of_nat (length (structBytes od))
                             + len_opt flat)
                  = sizeOfOutHeader + Z.of_nat (length (structBytes od))
                    + len_opt flat).
  { unfold to_uint32. apply Z.mod_small. unfold sizeOfOutHeader in *. lia. }
  destruct od as [d|]; cbn [structBytes] in *.
  - pose proof (Hsize ltac:(discriminate)) as Hout. symmetry in Hout.
    destruct (0 <? InputSize h) eqn:Epos; req_norm_in Hres.
    all: destruct flat as [fl|]; cbn [len_opt replyWrite] in *.
    all: go_run_with ltac:(rewrite ?Hlen, ?Hh, ?Hf, ?Harg, ?Epos, ?Hop, ?Hres,
                                   ?Hout, ?Hmake, ?Hroom).
    all: trace_norm; cbn [calls replies filter isCall isReply].
    all: repeat split.
    all: unfold asSlice; rewrite reply_bytes.
    all: cbn [len_opt]; rewrite ?Z.add_0_r in *; rewrite Hlenq; reflexivity.
  - destruct (0 <? InputSize h) eqn:Epos; req_norm_in Hres.
    all: destruct flat as [fl|]; cbn [len_opt replyWrite] in *.
    all: go_run_with ltac:(rewrite ?Hlen, ?Hh, ?Hf, ?Harg, ?Epos, ?Hop, ?Hres).
    all: trace_norm; cbn [calls replies filter isCall isReply].
    all: repeat split.
    all: unfold asSlice.
    all: change (sizeOfOutHeader + 0)
           with (sizeOfOutHeader + Z.of_nat (@length byte [])).
    all: change (@nil byte)
           with (firstn (Z.to_nat (Z.of_nat (@length byte []))) (@nil byte)) at 1.
    all: rewrite reply_bytes.
    all: cbn [length Z.of_nat len_opt] in *; rewrite app_nil_r.
    all: rewrite ?Z.add_0_r in *; rewrite Hlenq; reflexivity.
Qed.

End Answering.

Section Replies.

Variable getHandler : Z -> option operationHandler.
Variable operationName : Z -> string.

Lemma header_only (h : OutHeader) :
  copy_at (Z.to_nat sizeOfOutHeader)
          (storeOutHeader (zeros (sizeOfOutHeader + 0)) h) []
  = bytesOutHeader h.
Proof.
  change (sizeOfOutHeader + 0) with (sizeOfOutHeader + Z.of_nat (@length byte [])).
  change (@nil byte)
    with (firstn (Z.to_nat (Z.of_nat (@length byte []))) (@nil byte)) at 2.
  rewrite reply_bytes. apply app_nil_r.
Qed.

Lemma asSlice_none (p : option (list byte)) : asSlice p 0 = [].
Proof. destruct p as [d|]; [destruct d|]; reflexivity. Qed.

(** A handler that fails is called once and answered once, with a bare
    header: whatever struct it left is not sent, and the header carries
    the negated status and the correlation id of the request. *)
Theorem handle_answers_failure
    (req : request) (me : MountState) (h : operationHandler)
    (f : request -> handlerResult) (st : Z) (od : option (list byte)) :
  let hdr := viewInHeader (elems (inputBuf req)) in
  let region := skipn (Z.to_nat inHSize) (elems (inputBuf req)) in
  let evs := newEvents me (finalMe (handle getHandler operationName (req, me))) in
  inHSize <= len (inputBuf req) ->
  getHandler (Opcode hdr) = Some h ->
  Func h = Some f ->
  InputSize h <= Z.of_nat (length region) ->
  status req = OK ->
  Opcode hdr <> FUSE_FORGET ->
  f (decoded (InputSize h) req) = mkHandlerResult st od None ->
  st <> OK ->
  - 2 ^ 31 < st < 2 ^ 31 ->
  outcome (handle getHandler operationName (req, me)) = Val tt /\
  calls evs = [EvCall (decoded (InputSize h) req)] /\
  replies evs
  = [EvWrite (bytesOutHeader {| oLength := sizeOfOutHeader;
                                oStatus := - st;
                                oUnique := Unique hdr |})].
Proof.
  cbv zeta. intros Hlen Hh Hf Harg Hst Hop Hres Hfail Hrange.
  apply Z.ltb_ge in Hlen. apply Z.ltb_ge in Harg. apply Z.eqb_neq in Hop.
  apply Z.eqb_neq in Hfail.
  assert (Hneg : to_int32 (- st) = - st).
  { unfold to_int32. rewrite Z.mod_small; lia. }
  unfold decoded in *.
  destruct req as [ib ih id a od0 st0 fd ohb sn pn].
  destruct me as [dbg bufs lm we clk tr].
  cbn [inputBuf status] in *. subst st0.
  destruct (0 <? InputSize h) eqn:Epos; req_norm_in Hres.
  all: go_run_with ltac:(rewrite ?Hlen, ?Hh, ?Hf, ?Harg, ?Epos, ?Hop, ?Hres,
                                 ?Hfail).
  all: trace_norm; cbn [calls replies filter isCall isReply].
  all: repeat split.
  all: rewrite ?asSlice_none, header_only, Hneg; reflexivity.
Qed.

(** A forget with a handler is dispatched like any other request: the
    handler is called once, and then nothing is written. *)
Theorem handle_dispatches_forget
    (req : request) (me : MountState) (h : operationHandler)
    (f : request -> handlerResult) :
  let hdr := viewInHeader (elems (inputBuf req)) in
  let region := skipn (Z.to_nat inHSize) (elems (inputBuf req)) in
  let evs := newEvents me (finalMe (handle getHandler operationName (req, me))) in
  inHSize <= len (inputBuf req) ->
  Opcode hdr = FUSE_FORGET ->
  getHandler FUSE_FORGET = Some h ->
  Func h = Some f ->
  InputSize h <= Z.of_nat (length region) ->
  status req = OK ->
  outcome (handle getHandler operationName (req, me)) = Val tt /\
  calls evs = [EvCall (decoded (InputSize h) req)] /\
  replies evs = [].
Proof.
  cbv zeta. intros Hlen Hop Hh Hf Harg Hst.
  apply Z.ltb_ge in Hlen. apply Z.ltb_ge in Harg.
  unfold decoded.
  open_state req me. subst st.
  destruct (0 <? InputSize h) eqn:Epos.
  all: go_run_with ltac:(rewrite ?Hlen, ?Hop, ?Hh, ?Hf, ?Harg, ?Epos).
  all: trace_norm; cbn [calls replies filter isCall isReply].
  all: repeat split.
Qed.

(** Whatever the message, the registry and the handler: [handle] calls a
    handler at most once and writes at most one reply, and the call comes
    before the reply. *)
Theorem handle_at_most_once (req : request) (me : MountState) :
  let evs := newEvents me (finalMe (handle getHandler operationName (req, me))) in
  (length (calls evs) <= 1)%nat /\
  (length (replies evs) <= 1)%nat /\
  filter (fun e => isCall e || isReply e) evs = calls evs ++ replies evs.
Proof.
  cbv zeta. open_state req me.
  go_run.
  all: trace_norm; cbn [calls replies filter isCall isReply orb length app].
  all: repeat split; lia.
Qed.

(** [handle] only adds to the trace, never reads from the channel, and
    leaves the input buffer of the request as it was: its backing array,
    its length and its capacity. *)
Theorem handle_keeps_input (req : request) (me : MountState) :
  trace (finalMe (handle getHandler operationName (req, me)))
  = trace me ++ newEvents me (finalMe (handle getHandler operationName (req, me))) /\
  readBuffers (newEvents me (finalMe (handle getHandler operationName (req, me)))) = [] /\
  inputBuf (finalReq (handle getHandler operationName (req, me))) = inputBuf req.
Proof.
  destruct (handle_frame getHandler operationName req me) as (evs & Htr & Hrd & Hbuf).
  unfold newEvents. rewrite Htr, skipn_app_exact. repeat split; assumption.
Qed.

(** [Write] sends the encoded reply in one write, vectored when there is
    flat data, and never twice: a failing write is logged with the name
    of the operation and the reply is given up. Without encoded reply
    nothing is written. *)
Theorem Write_sends_once (req : request) (me : MountState) (hdr : InHeader) :
  let run := Write operationName (req, me) in
  inHeader req = Some hdr ->
  outcome run = Val tt /\
  (outHeaderBytes req = None -> newEvents me (finalMe run) = []) /\
  (forall b, outHeaderBytes req = Some b ->
     replies (newEvents me (finalMe run)) = [replyWrite b (flatData req)] /\
     writeErrs (finalMe run) = tl (writeErrs me) /\
     (forall errNo rest, writeErrs me = Some errNo :: rest ->
        newEvents me (finalMe run)
        = [replyWrite b (flatData req);
           EvLog (LogWriteFailed b errNo (operationName (Opcode hdr)))]) /\
     (hd None (writeErrs me) = None ->
        newEvents me (finalMe run) = [replyWrite b (flatData req)])).
Proof.
  cbv zeta. intros Hhdr. open_state req me. subst ih.
  unfold Write. unfold replyWrite.
  repeat split.
  - go_run; reflexivity.
  - intros ->. go_run; trace_norm; reflexivity.
  - subst ohb. go_run; trace_norm; reflexivity.
  - subst ohb. go_run; reflexivity.
  - intros errNo rest ->. subst ohb. go_run; trace_norm; reflexivity.
  - intros Hhd. subst ohb. go_run; trace_norm; cbn in Hhd; try reflexivity;
      discriminate Hhd.
Qed.

(** ** Statistics *)

(** With a latency map in place, a request with a whole header adds two
    records to it, one under the name of the operation and one under
    that name followed by "-write", whether the opcode is known or not,
    a handler ran or not, and a reply was written or not. *)
Theorem handle_records_two_latencies
    (req : request) (me : MountState) (m : LatencyMapT) :
  let hdr := viewInHeader (elems (inputBuf req)) in
  let run := handle getHandler operationName (req, me) in
  inHSize <= len (inputBuf req) ->
  LatencyMap me = Some m ->
  (forall h, getHandler (Opcode hdr) = Some h -> 0 <= OutputSize h) ->
  outcome run = Val tt /\
  exists dt dw,
    LatencyMap (finalMe run)
    = Some (m ++ [mkLatencyArg (operationName (Opcode hdr)) EmptyString dt;
                  mkLatencyArg (operationName (Opcode hdr) ++ "-write")
                               EmptyString dw]).
Proof.
  cbv zeta. intros Hlen Hlm Hout. apply Z.ltb_ge in Hlen.
  open_state req me. subst lm.
  assert (Hroom0 : forall n, 0 <= n ->
             (Z.of_nat (length (zeros (sizeOfOutHeader + n))) <? sizeOfOutHeader)
             = false).
  { intros n Hn. apply Z.ltb_ge. rewrite length_zeros; unfold sizeOfOutHeader; lia. }
  destruct (getHandler (Opcode (viewInHeader (elems ib)))) as [h|] eqn:Hh.
  - specialize (Hout h eq_refl).
    assert (Hmake : (sizeOfOutHeader + OutputSize h <? 0) = false)
      by (apply Z.ltb_ge; unfold sizeOfOutHeader; lia).
    pose proof (Hroom0 _ Hout) as Hroom.
    split.
    + go_run_with ltac:(rewrite ?Hlen, ?Hh, ?Hmake, ?Hroom).
      all: try congruence; reflexivity.
    + go_run_with ltac:(rewrite ?Hlen, ?Hh, ?Hmake, ?Hroom).
      all: try congruence; eexists; eexists; reflexivity.
  - split.
    + go_run_with ltac:(rewrite ?Hlen, ?Hh); reflexivity.
    + go_run_with ltac:(rewrite ?Hlen, ?Hh).
      all: eexists; eexists; reflexivity.
Qed.

(** Recording statistics changes nothing of what a worker does to the
    outside: the log lines, the handler call and the reply of [handle]
    are the same whatever the latency map is; and for a message with a
    whole header so is the outcome. *)
Theorem statistics_are_not_observable
    (req : request) (me : MountState) (lm1 lm2 : option LatencyMapT) :
  let run1 := handle getHandler operationName (req, set_LatencyMap lm1 me) in
  let run2 := handle getHandler operationName (req, set_LatencyMap lm2 me) in
  newEvents (set_LatencyMap lm1 me) (finalMe run1)
  = newEvents (set_LatencyMap lm2 me) (finalMe run2) /\
  (inHSize <= len (inputBuf req) -> outcome run1 = outcome run2).
Proof.
  cbv zeta. open_state req me. unfold set_LatencyMap.
  cbn [Debug buffers writeErrs clock trace].
  split.
  - go_run. all: try congruence; trace_norm; reflexivity.
  - intros Hlen. apply Z.ltb_ge in Hlen.
    go_run_with ltac:(rewrite ?Hlen). all: try congruence; reflexivity.
Qed.

End Replies.

(** ** Reading and recycling *)

Lemma afterRead_elems (buf : slice) (rd : ReadOutcome) :
  cap buf = bufSize -> len buf = bufSize ->
  forall t, elems (inputBuf (afterRead buf rd t))
            = firstn (Z.to_nat bufSize) (rdData rd).
Proof.
  intros Hcap Hlen t. unfold afterRead, elems.
  cbn [inputBuf set_startNs requestLit arr len]. rewrite Nat2Z.id, Hlen.
  rewrite copy_prefix.
  - rewrite firstn_app, Nat.sub_diag, firstn_all. cbn [firstn]. apply app_nil_r.
  - rewrite length_firstn. unfold cap in Hcap. lia.
Qed.

Lemma afterRead_cap (buf : slice) (rd : ReadOutcome) :
  cap buf = bufSize -> forall t, cap (inputBuf (afterRead buf rd t)) = bufSize.
Proof.
  intros Hcap t. unfold afterRead, cap. cbn [inputBuf set_startNs requestLit arr].
  rewrite length_copy. exact Hcap.
Qed.

(** A read into a full-size buffer leaves in the request exactly the
    bytes that were delivered, cut to the size of the buffer when the
    message is longer; the capacity of the buffer stays what it was, and
    the error of the read is passed on. *)
Theorem readRequest_stores_message
    (buf : slice) (rd : ReadOutcome) (me : MountState) :
  let run := readRequest rd (requestLit OK buf, me) in
  cap buf = bufSize -> len buf = bufSize ->
  outcome run = Val (rdErr rd) /\
  elems (inputBuf (finalReq run)) = firstn (Z.to_nat bufSize) (rdData rd) /\
  cap (inputBuf (finalReq run)) = bufSize /\
  newEvents me (finalMe run) = [EvRead buf].
Proof.
  cbv zeta. intros Hcap Hlen.
  rewrite readRequest_full by assumption.
  pose proof (afterRead_elems buf rd Hcap Hlen) as He.
  pose proof (afterRead_cap buf rd Hcap) as Hc.
  destruct me as [dbg bufs lm we clk tr].
  unfold outcome, finalReq, finalMe, newEvents.
  destruct lm; cbn [fst snd LatencyMap trace record set_trace set_clock].
  all: rewrite He, Hc, skipn_app_exact; repeat split; reflexivity.
Qed.

(** Recycling a request whose buffer is smaller than [bufSize] panics,
    after the flat data of the request has been released. *)
Theorem newRequest_needs_full_buffer (old : request) (me : MountState) :
  cap (inputBuf old) < bufSize ->
  newRequest (Some old) me
  = (Panic SliceOutOfRange,
     set_buffers (BufferPool.FreeBuffer (buffers me) (flatData old)) me).
Proof.
  intros Hcap.
  assert (Hre : (0 <=? bufSize) && (bufSize <=? cap (inputBuf old)) = false).
  { apply andb_false_iff. right. apply Z.leb_gt, Hcap. }
  unfold newRequest, bind, modifyState, reslice. rewrite Hre. reflexivity.
Qed.

Section Turns.

Variable getHandler : Z -> option operationHandler.
Variable operationName : Z -> string.

Lemma loopBody_on_message
    (lastReq : option request) (rd : ReadOutcome) (me : MountState) :
  holdsFullBuffer lastReq ->
  rdErr rd = None ->
  exists req me1 buf,
    trace me1 = trace me ++ [EvRead buf] /\
    cap (inputBuf req) = bufSize /\
    elems (inputBuf req) = firstn (Z.to_nat bufSize) (rdData rd) /\
    inHeader req = None /\ inData req = None /\ arg req = [] /\
    outData req = None /\ flatData req = None /\ outHeaderBytes req = None /\
    status req = OK /\
    loopBody getHandler operationName lastReq rd me
    = match handle getHandler operationName (req, me1) with
      | (Val _, (req', me')) => (Val (Continue, req'), me')
      | (Panic why, (_, me')) => (Panic why, me')
      end.
Proof.
  intros Hwf Herr.
  destruct (newRequest_full lastReq me Hwf) as (buf & pool & Hnew & Hcap & Hlen).
  pose proof (afterRead_elems buf rd Hcap Hlen) as Helems.
  pose proof (afterRead_cap buf rd Hcap) as Hc.
  pose proof (readRequest_full buf rd (set_buffers pool me) Hcap Hlen) as Hread.
  unfold loopBody. unfold bind at 1. rewrite Hnew.
  rewrite withReq_bind, Hread, Herr.
  destruct me as [dbg bufs lm we clk tr].
  cbn [set_buffers LatencyMap] in *.
  destruct lm as [m|]; cbn [fst snd] in *.
  - exists (afterRead buf rd clk),
      (set_clock (clk + 1)
         (record (EvRead buf) (mkMountState dbg pool (Some m) we clk tr))),
      buf.
    split; [reflexivity|]. split; [apply Hc|]. split; [apply Helems|].
    repeat (split; [reflexivity|]).
    unfold withReq, bind, ret.
    destruct (handle getHandler operationName _) as [[[]|w] [r m0]]; reflexivity.
  - exists (afterRead buf rd 0),
      (record (EvRead buf) (mkMountState dbg pool None we clk tr)),
      buf.
    split; [reflexivity|]. split; [apply Hc|]. split; [apply Helems|].
    repeat (split; [reflexivity|]).
    unfold withReq, bind, ret.
    destruct (handle getHandler operationName _) as [[[]|w] [r m0]]; reflexivity.
Qed.

(** A turn of the loop whose read succeeds hands to [handle] a request
    that holds the message just read and nothing of the request before
    it: no header, no argument, no output, and the status [OK]. The
    worker goes on, unless [handle] panics. *)
Theorem loop_turn_handles_the_message
    (lastReq : option request) (rd : ReadOutcome) (me : MountState) :
  holdsFullBuffer lastReq ->
  rdErr rd = None ->
  exists req me1 buf,
    trace me1 = trace me ++ [EvRead buf] /\
    elems (inputBuf req) = firstn (Z.to_nat bufSize) (rdData rd) /\
    inHeader req = None /\ inData req = None /\ arg req = [] /\
    outData req = None /\ flatData req = None /\ outHeaderBytes req = None /\
    status req = OK /\
    loopBody getHandler operationName lastReq rd me
    = match handle getHandler operationName (req, me1) with
      | (Val _, (req', me')) => (Val (Continue, req'), me')
      | (Panic why, (_, me')) => (Panic why, me')
      end.
Proof.
  intros Hwf Herr.
  destruct (loopBody_on_message lastReq rd me Hwf Herr)
    as (req & me1 & buf & H1 & _ & H2).
  exists req, me1, buf. split; [exact H1 | exact H2].
Qed.

(** A read failure other than [ENOENT] ends the loop at once: the worker
    is stopped without panic, it has made one read, and the reads that
    would follow are not made. *)
Theorem loop_stops_on_terminal_error
    (lastReq : option request) (rd : ReadOutcome) (rest : list ReadOutcome)
    (me : MountState) (errNo : Z) :
  let run := loopFrom getHandler operationName lastReq (rd :: rest) me in
  holdsFullBuffer lastReq ->
  rdErr rd = Some errNo ->
  errNo <> ENOENT ->
  outcome run = Val STOPPED /\
  length (readBuffers (newEvents me (snd run))) = 1%nat /\
  replies (newEvents me (snd run)) = [] /\
  snd run = snd (loopFrom getHandler operationName lastReq [rd] me).
Proof.
  cbv zeta. intros Hwf Herr Hne. apply Z.eqb_neq in Hne.
  destruct (loopBody_unfold getHandler operationName lastReq rd me Hwf)
    as (buf & req2 & me2 & _ & _ & _ & _ & Htr & _ & Hbody).
  assert (E : exists me3 l,
             loopBody getHandler operationName lastReq rd me
             = (Val (Break, req2), me3) /\
             trace me3 = trace me ++ EvRead buf :: l /\
             readBuffers l = [] /\ replies l = []).
  { rewrite Hbody, Herr, Hne.
    destruct (errNo =? ENODEV); [|destruct (errNo =? ENOSYS)].
    - exists me2, []. repeat split. exact Htr.
    - exists me2, []. repeat split. exact Htr.
    - exists (record (EvLog (LogReadFailed errNo)) me2),
        [EvLog (LogReadFailed errNo)].
      repeat split. unfold record. cbn [trace set_trace].
      rewrite Htr, <- app_assoc. reflexivity. }
  destruct E as (me3 & l & E & Htr3 & Hrd & Hrep).
  cbn [loopFrom]. unfold bind. rewrite E. cbn [fst snd ret].
  unfold outcome, newEvents. cbn [fst snd]. rewrite Htr3, skipn_app_exact.
  cbn [readBuffers replies filter isReply]. fold (replies l).
  rewrite Hrd, Hrep. repeat split.
Qed.

Lemma loopFrom_read_count (reads : list ReadOutcome) :
  forall (lastReq : option request) (me : MountState),
    holdsFullBuffer lastReq ->
    exists evs,
      trace (snd (loopFrom getHandler operationName lastReq reads me))
      = trace me ++ evs /\
      (length (readBuffers evs) <= length reads)%nat /\
      (forall w, fst (loopFrom getHandler operationName lastReq reads me)
                 = Val (RUNNING w) ->
                 length (readBuffers evs) = length reads).
Proof.
  induction reads as [|rd rest IH]; intros lastReq me Hwf.
  - exists []. cbn. rewrite app_nil_r. repeat split; lia.
  - destruct (loopBody_reads getHandler operationName lastReq rd me Hwf)
      as (buf & evs & Htr & _ & _ & Hnone & Hnext).
    cbn [loopFrom]. unfold bind.
    destruct (loopBody getHandler operationName lastReq rd me)
      as [[[flow req]|w] me1]; cbn [fst snd] in *.
    + destruct flow.
      * destruct (IH (Some req) me1 (Hnext _ _ eq_refl)) as (evs2 & Htr2 & Hle & Heq).
        exists (EvRead buf :: evs ++ evs2). rewrite Htr2, Htr, <- app_assoc.
        split; [reflexivity|].
        cbn [readBuffers length]. rewrite readBuffers_app, Hnone. cbn [app].
        split; [lia|]. intros w Hw. rewrite (Heq w Hw). reflexivity.
      * exists (EvRead buf :: evs). split; [exact Htr|].
        cbn [readBuffers length]. rewrite Hnone. cbn [length ret fst].
        split; [lia|]. intros w0 Hw. discriminate Hw.
    + exists (EvRead buf :: evs). split; [exact Htr|].
      cbn [readBuffers length]. rewrite Hnone. cbn [length fst].
      split; [lia|]. intros w0 Hw. discriminate Hw.
Qed.

(** A worker reads at most once per message that is there to read, and a
    worker that is still running has read them all: no turn ends without
    its read, and none reads twice. *)
Theorem loop_reads_once_per_turn (reads : list ReadOutcome) (me : MountState) :
  let run := loop getHandler operationName reads me in
  (length (readBuffers (newEvents me (snd run))) <= length reads)%nat /\
  (match outcome run with Val (RUNNING _) => True | _ => False end ->
   length (readBuffers (newEvents me (snd run))) = length reads).
Proof.
  cbv zeta. destruct (loopFrom_read_count reads None me I) as (evs & Htr & Hle & Heq).
  unfold loop, newEvents, outcome in *. rewrite Htr, skipn_app_exact.
  split; [exact Hle|].
  destruct (fst (loopFrom getHandler operationName None reads me)) as [[w|]|why];
    try contradiction.
  intros _. apply (Heq w). reflexivity.
Qed.

(** Every reply of [handle] carries the correlation id laid over the
    input buffer (the statement of the engine, for use across turns). *)
Lemma handle_reply_id (req : request) (me : MountState) (evs : list Event) :
  trace (finalMe (handle getHandler operationName (req, me))) = trace me ++ evs ->
  forall e b, In e evs -> replyBytes e = Some b ->
    oUnique (viewOutHeader b) = Unique (viewInHeader (elems (inputBuf req))).
Proof.
  open_state req me.
  go_run.
  all: rewrite <- ?app_assoc; intros Htr.
  all: try (apply app_inv_head in Htr).
  all: try (rewrite <- (app_nil_r tr) in Htr at 1; apply app_inv_head in Htr).
  all: subst evs; cbn [app]; intros e b Hin Hb; cbn [In] in Hin.
  all: repeat match goal with
              | H : _ \/ _ |- _ => destruct H
              | H : False |- _ => destruct H
              end; subst e; cbn [replyBytes] in Hb; try discriminate Hb.
  all: injection Hb as <-.
  all: rewrite reply_header by first [assumption | apply header_room_ok].
  all: cbn [oUnique].
  all: apply Z.mod_small, Unique_range.
Qed.

Lemma loopBody_replies (lastReq : option request) (rd : ReadOutcome)
    (me : MountState) :
  holdsFullBuffer lastReq ->
  exists evs,
    trace (snd (loopBody getHandler operationName lastReq rd me)) = trace me ++ evs /\
    (forall e b, In e evs -> replyBytes e = Some b ->
       rdErr rd = None /\
       oUnique (viewOutHeader b)
       = Unique (viewInHeader (firstn (Z.to_nat bufSize) (rdData rd)))) /\
    forall flow req,
      fst (loopBody getHandler operationName lastReq rd me) = Val (flow, req) ->
      holdsFullBuffer (Some req).
Proof.
  intros Hwf.
  destruct (rdErr rd) as [errNo|] eqn:Herr.
  - destruct (loopBody_reads getHandler operationName lastReq rd me Hwf)
      as (buf & evs & Htr & _ & _ & _ & Hnext).
    exists (EvRead buf :: evs). split; [exact Htr|]. split; [|exact Hnext].
    destruct (loopBody_unfold getHandler operationName lastReq rd me Hwf)
      as (buf' & req2 & me2 & _ & _ & _ & _ & Htr2 & _ & Hbody).
    rewrite Hbody, Herr in Htr.
    destruct (discardRequest_frame operationName req2 me2) as [Hd1 _].
    unfold finalMe in Hd1.
    assert (Hevs : forall e, In e (EvRead buf :: evs) -> replyBytes e = None).
    { destruct (errNo =? ENOENT); [|destruct (errNo =? ENODEV);
                                     [|destruct (errNo =? ENOSYS)]].
      - unfold withReq, bind, ret in Htr.
        destruct (discardRequest operationName (req2, me2)) as [[[]|w] [r3 m3]];
          cbn [fst snd] in *; rewrite Hd1, Htr2 in Htr;
          apply app_inv_head in Htr; injection Htr as <- <-;
          intros e [<-|[]]; reflexivity.
      - unfold withReq, ret in Htr. cbn [fst snd] in Htr. rewrite Htr2 in Htr.
        apply app_inv_head in Htr. injection Htr as <- <-.
        intros e [<-|[]]; reflexivity.
      - unfold withReq, ret in Htr. cbn [fst snd] in Htr. rewrite Htr2 in Htr.
        apply app_inv_head in Htr. injection Htr as <- <-.
        intros e [<-|[]]; reflexivity.
      - unfold withReq, bind, ret, updMe, record in Htr.
        cbn [fst snd trace set_trace] in Htr. rewrite Htr2, <- app_assoc in Htr.
        apply app_inv_head in Htr. injection Htr as <- <-.
        intros e [<-|[<-|[]]]; reflexivity. }
    intros e b Hin Hb. rewrite (Hevs e Hin) in Hb. discriminate Hb.
  - destruct (loopBody_on_message lastReq rd me Hwf Herr)
      as (req & me1 & buf & Htr1 & Hcap & Helems & _ & _ & _ & _ & _ & _ & _ & Hbody).
    destruct (handle_frame getHandler operationName req me1)
      as (evs & Hh1 & _ & Hh3).
    pose proof (handle_reply_id req me1 evs Hh1) as Hid.
    unfold finalMe, finalReq in Hh1, Hh3.
    exists (EvRead buf :: evs). rewrite Hbody.
    destruct (handle getHandler operationName (req, me1)) as [[[]|w] [req3 me3]];
      cbn [fst snd] in *; rewrite Hh1, Htr1, <- app_assoc.
    all: split; [reflexivity|]; split.
    all: try (intros e b [<-|Hin] Hb; [discriminate Hb|];
              split; [reflexivity|]; rewrite <- Helems; apply (Hid e b Hin Hb)).
    + intros flow r [= _ <-]. cbn [holdsFullBuffer]. rewrite Hh3. exact Hcap.
    + discriminate.
Qed.

Lemma loopFrom_replies (reads : list ReadOutcome) :
  forall (lastReq : option request) (me : MountState),
    holdsFullBuffer lastReq ->
    exists evs,
      trace (snd (loopFrom getHandler operationName lastReq reads me))
      = trace me ++ evs /\
      forall e b, In e evs -> replyBytes e = Some b ->
        exists rd, In rd reads /\ rdErr rd = None /\
          oUnique (viewOutHeader b)
          = Unique (viewInHeader (firstn (Z.to_nat bufSize) (rdData rd))).
Proof.
  induction reads as [|rd rest IH]; intros lastReq me Hwf.
  - exists []. cbn. rewrite app_nil_r. split; [reflexivity | intros e b []].
  - destruct (loopBody_replies lastReq rd me Hwf) as (evs & Htr & Hrep & Hnext).
    assert (Hhere : forall e b, In e evs -> replyBytes e = Some b ->
              exists rd0, In rd0 (rd :: rest) /\ rdErr rd0 = None /\
                oUnique (viewOutHeader b)
                = Unique (viewInHeader (firstn (Z.to_nat bufSize) (rdData rd0)))).
    { intros e b Hin Hb. exists rd. destruct (Hrep e b Hin Hb) as [H1 H2].
      split; [left; reflexivity | split; assumption]. }
    cbn [loopFrom]. unfold bind.
    destruct (loopBody getHandler operationName lastReq rd me)
      as [[[flow req]|w] me1]; cbn [fst snd] in *.
    + destruct flow.
      * destruct (IH (Some req) me1 (Hnext _ _ eq_refl)) as (evs2 & Htr2 & Hrep2).
        exists (evs ++ evs2). rewrite Htr2, Htr, <- app_assoc.
        split; [reflexivity|].
        intros e b Hin Hb. apply in_app_or in Hin. destruct Hin as [Hin|Hin].
        -- apply (Hhere e b Hin Hb).
        -- destruct (Hrep2 e b Hin Hb) as (rd0 & Hin0 & H0).
           exists rd0. split; [right; exact Hin0 | exact H0].
      * exists evs. split; [exact Htr | exact Hhere].
    + exists evs. split; [exact Htr | exact Hhere].
Qed.

(** Over a whole run of a worker, every reply written to the channel
    answers a message that was read without error: it carries the
    correlation id of one of them. *)
Theorem loop_replies_answer_messages
    (reads : list ReadOutcome) (me : MountState) (e : Event) (b : list byte) :
  In e (newEvents me (snd (loop getHandler operationName reads me))) ->
  replyBytes e = Some b ->
  exists rd, In rd reads /\ rdErr rd = None /\
    oUnique (viewOutHeader b)
    = Unique (viewInHeader (firstn (Z.to_nat bufSize) (rdData rd))).
Proof.
  destruct (loopFrom_replies reads None me I) as (evs & Htr & Hrep).
  unfold loop, newEvents. rewrite Htr, skipn_app_exact. apply Hrep.
Qed.

End Turns.

(** ** The further properties at work *)

Lemma filename_strips_trailing_nuls_witness :
  (exists k, arg renameReq = filename renameReq ++ repeat Byte.x00 k) /\
  Byte.x77 <> Byte.x00.
Proof.
  destruct (filename_strips_trailing_nuls renameReq) as [Hsplit Hlast].
  split; [exact Hsplit|].
  apply (Hlast [Byte.x6f; Byte.x6c; Byte.x64; Byte.x00; Byte.x6e; Byte.x65]).
  vm_compute. reflexivity.
Defined.

Lemma filename_of_terminated_name_witness :
  filename renameReq
  = [Byte.x6f; Byte.x6c; Byte.x64; Byte.x00; Byte.x6e; Byte.x65; Byte.x77].
Proof.
  apply (filename_of_terminated_name renameReq
           [Byte.x6f; Byte.x6c; Byte.x64; Byte.x00; Byte.x6e; Byte.x65; Byte.x77]
           1).
  - reflexivity.
  - intros front c H. symmetry in H.
    apply (app_inj_tail front
             [Byte.x6f; Byte.x6c; Byte.x64; Byte.x00; Byte.x6e; Byte.x65]
             c Byte.x77) in H.
    destruct H as [_ ->]. discriminate.
Defined.

Lemma filenames_join_witness :
  joinNul (filenames renameReq 2) = arg renameReq /\
  Z.of_nat (length (filenames renameReq 2)) = Z.min 2 (Z.of_nat 2 + 1) /\
  length (filenames renameReq (-1)) = 3%nat.
Proof.
  destruct (filenames_join renameReq 2) as (Hjoin & Hlen & _ & _).
  destruct (filenames_join renameReq (-1)) as (_ & _ & Hall & _).
  split; [apply Hjoin; lia|]. split; [apply Hlen; lia | apply Hall; lia].
Defined.

Lemma filenames_pieces_witness :
  (forall p, In p (filenames renameReq 3) -> countNul p = O) /\
  countNul (last (filenames renameReq 2) []) = 1%nat.
Proof.
  destruct (filenames_pieces renameReq 3) as (_ & Hall & _).
  destruct (filenames_pieces renameReq 2) as (_ & _ & Hlast).
  split.
  - apply Hall. right. vm_compute. reflexivity.
  - apply Hlast. vm_compute. split; [reflexivity | discriminate].
Defined.

Lemma chopMessage_splits_region_witness :
  chopMessage Fixture.getHandler (Fixture.received Fixture.forgetMsg, NewMountState)
  = (Val (Fixture.getHandler FUSE_FORGET),
     (decoded 8 (Fixture.received Fixture.forgetMsg), NewMountState)) /\
  inData (decoded 8 (Fixture.received Fixture.forgetMsg)) = Some (le_split 8 1) /\
  arg (decoded 8 (Fixture.received Fixture.forgetMsg)) = [].
Proof.
  edestruct (chopMessage_splits_region Fixture.getHandler
               (Fixture.received Fixture.forgetMsg) NewMountState)
    as (Hrun & _ & _ & _ & _).
  - vm_compute. discriminate.
  - vm_compute. reflexivity.
  - reflexivity.
  - vm_compute. discriminate.
  - split; [exact Hrun|]. split; vm_compute; reflexivity.
Defined.

Lemma handle_answers_success_witness :
  replies
    (newEvents NewMountState
       (finalMe (handle Fixture.getHandler Fixture.operationName
                   (Fixture.received Fixture.lookupMsg, NewMountState))))
  = [EvWrite Fixture.lookupReply] /\
  replies
    (newEvents NewMountState
       (finalMe (handle Sample.getHandler Fixture.operationName
                   (Fixture.received Sample.readMsg, NewMountState))))
  = [EvWritev (le_split 4 19 ++ le_split 4 0 ++ le_split 8 91) (le_split 3 5)].
Proof.
  split.
  - edestruct (handle_answers_success Fixture.getHandler Fixture.operationName
                 (Fixture.received Fixture.lookupMsg) NewMountState)
      as (_ & _ & Hrep).
    + vm_compute. discriminate.
    + vm_compute. reflexivity.
    + reflexivity.
    + vm_compute. discriminate.
    + reflexivity.
    + vm_compute. discriminate.
    + reflexivity.
    + intros _. vm_compute. reflexivity.
    + vm_compute. discriminate.
    + vm_compute. reflexivity.
    + exact Hrep.
  - edestruct (handle_answers_success Sample.getHandler Fixture.operationName
                 (Fixture.received Sample.readMsg) NewMountState)
      as (_ & _ & Hrep).
    + vm_compute. discriminate.
    + vm_compute. reflexivity.
    + reflexivity.
    + vm_compute. discriminate.
    + reflexivity.
    + vm_compute. discriminate.
    + reflexivity.
    + intros H. exfalso. apply H. reflexivity.
    + vm_compute. discriminate.
    + vm_compute. reflexivity.
    + exact Hrep.
Defined.

Lemma handle_answers_failure_witness :
  replies
    (newEvents NewMountState
       (finalMe (handle Sample.getHandler Fixture.operationName
                   (Fixture.received Sample.getattrMsg, NewMountState))))
  = [EvWrite (le_split 4 16 ++ le_split 4 (-2) ++ le_split 8 90)].
Proof.
  edestruct (handle_answers_failure Sample.getHandler Fixture.operationName
               (Fixture.received Sample.getattrMsg) NewMountState)
    as (_ & _ & Hrep).
  - vm_compute. discriminate.
  - vm_compute. reflexivity.
  - reflexivity.
  - vm_compute. discriminate.
  - reflexivity.
  - vm_compute. discriminate.
  - reflexivity.
  - vm_compute. discriminate.
  - vm_compute. split; reflexivity.
  - exact Hrep.
Defined.

Lemma handle_dispatches_forget_witness :
  calls
    (newEvents NewMountState
       (finalMe (handle Fixture.getHandler Fixture.operationName
                   (Fixture.received Fixture.forgetMsg, NewMountState))))
  = [EvCall (decoded 8 (Fixture.received Fixture.forgetMsg))] /\
  replies
    (newEvents NewMountState
       (finalMe (handle Fixture.getHandler Fixture.operationName
                   (Fixture.received Fixture.forgetMsg, NewMountState))))
  = [].
Proof.
  edestruct (handle_dispatches_forget Fixture.getHandler Fixture.operationName
               (Fixture.received Fixture.forgetMsg) NewMountState)
    as (_ & Hcall & Hrep).
  - vm_compute. discriminate.
  - vm_compute. reflexivity.
  - vm_compute. reflexivity.
  - reflexivity.
  - vm_compute. discriminate.
  - reflexivity.
  - split; [exact Hcall | exact Hrep].
Defined.

Lemma Write_sends_once_witness :
  newEvents Sample.failingChannel
    (finalMe (Write Fixture.operationName (Sample.encoded, Sample.failingChannel)))
  = [EvWrite Fixture.lookupReply;
     EvLog (LogWriteFailed Fixture.lookupReply EIO "LOOKUP")] /\
  writeErrs
    (finalMe (Write Fixture.operationName (Sample.encoded, Sample.failingChannel)))
  = [].
Proof.
  destruct (Write_sends_once Fixture.operationName Sample.encoded
              Sample.failingChannel (viewInHeader Fixture.lookupMsg) eq_refl)
    as (_ & _ & Hsome).
  destruct (Hsome Fixture.lookupReply eq_refl) as (_ & Herrs & Hfail & _).
  split; [apply (Hfail EIO []); reflexivity | exact Herrs].
Defined.

Lemma handle_records_two_latencies_witness :
  outcome (handle Fixture.getHandler Fixture.operationName
             (Fixture.received Fixture.lookupMsg, Fixture.recording)) = Val tt /\
  exists dt dw,
    LatencyMap
      (finalMe (handle Fixture.getHandler Fixture.operationName
                  (Fixture.received Fixture.lookupMsg, Fixture.recording)))
    = Some ([] ++ [mkLatencyArg "LOOKUP" EmptyString dt;
                   mkLatencyArg "LOOKUP-write" EmptyString dw]).
Proof.
  apply (handle_records_two_latencies Fixture.getHandler Fixture.operationName
           (Fixture.received Fixture.lookupMsg) Fixture.recording []).
  - vm_compute. discriminate.
  - reflexivity.
  - intros h Hh. vm_compute in Hh. injection Hh as <-. vm_compute. discriminate.
Defined.

Lemma statistics_are_not_observable_witness :
  outcome (handle Fixture.getHandler Fixture.operationName
             (Fixture.received Fixture.lookupMsg,
              set_LatencyMap (Some []) NewMountState))
  = outcome (handle Fixture.getHandler Fixture.operationName
               (Fixture.received Fixture.lookupMsg,
                set_LatencyMap None NewMountState)).
Proof.
  apply (proj2 (statistics_are_not_observable Fixture.getHandler
                  Fixture.operationName (Fixture.received Fixture.lookupMsg)
                  NewMountState (Some []) None)).
  vm_compute. discriminate.
Defined.

Lemma opcode_without_func_gets_enosys_witness :
  exists b,
    replies
      (newEvents NewMountState
         (finalMe (handle Fixture.getHandler Fixture.operationName
                     (Fixture.received Fixture.shortBmapMsg, NewMountState))))
    = [EvWrite b] /\
    calls
      (newEvents NewMountState
         (finalMe (handle Fixture.getHandler Fixture.operationName
                     (Fixture.received Fixture.shortBmapMsg, NewMountState))))
    = [] /\
    Z.of_nat (length b) = sizeOfOutHeader /\
    viewOutHeader b
    = {| oLength := sizeOfOutHeader; oStatus := - ENOSYS; oUnique := 81 |}.
Proof.
  eapply (opcode_without_func_gets_enosys Fixture.getHandler Fixture.operationName
            (Fixture.received Fixture.shortBmapMsg) NewMountState).
  - vm_compute. discriminate.
  - vm_compute. reflexivity.
  - reflexivity.
  - vm_compute. discriminate.
  - reflexivity.
Defined.

Lemma short_message_dropped_witness :
  handle Fixture.getHandler Fixture.operationName
    (Fixture.received Fixture.shortMsg, NewMountState)
  = (Val tt,
     (Fixture.received Fixture.shortMsg,
      record (EvLog (LogShortHeader Fixture.shortMsg)) NewMountState)).
Proof.
  apply (short_message_dropped Fixture.getHandler Fixture.operationName
           (Fixture.received Fixture.shortMsg) NewMountState).
  - reflexivity.
  - vm_compute. reflexivity.
Defined.

Lemma read_failure_classes_witness :
  exists buf req,
    outcome (loopBody Fixture.getHandler Fixture.operationName None
               (Fixture.fails ENODEV) NewMountState)
    = Val (Break, req) /\
    newEvents NewMountState
      (snd (loopBody Fixture.getHandler Fixture.operationName None
              (Fixture.fails ENODEV) NewMountState))
    = [EvRead buf] /\
    LatencyMap
      (snd (loopBody Fixture.getHandler Fixture.operationName None
              (Fixture.fails ENODEV) NewMountState)) = None.
Proof.
  apply (read_failure_classes Fixture.getHandler Fixture.operationName None
           (Fixture.fails ENODEV) NewMountState ENODEV).
  - exact I.
  - reflexivity.
  - reflexivity.
Defined.

Lemma readRequest_stores_message_witness :
  outcome (readRequest (Fixture.delivers Fixture.lookupMsg)
             (requestLit OK Sample.freshBuffer, NewMountState)) = Val None /\
  elems (inputBuf
           (finalReq (readRequest (Fixture.delivers Fixture.lookupMsg)
                        (requestLit OK Sample.freshBuffer, NewMountState))))
  = firstn (Z.to_nat bufSize) Fixture.lookupMsg /\
  cap (inputBuf
         (finalReq (readRequest (Fixture.delivers Fixture.lookupMsg)
                      (requestLit OK Sample.freshBuffer, NewMountState))))
  = bufSize /\
  newEvents NewMountState
    (finalMe (readRequest (Fixture.delivers Fixture.lookupMsg)
                (requestLit OK Sample.freshBuffer, NewMountState)))
  = [EvRead Sample.freshBuffer].
Proof.
  apply (readRequest_stores_message Sample.freshBuffer
           (Fixture.delivers Fixture.lookupMsg) NewMountState).
  - vm_compute. reflexivity.
  - reflexivity.
Defined.

Lemma newRequest_needs_full_buffer_witness :
  newRequest (Some (Fixture.received Fixture.lookupMsg)) NewMountState
  = (Panic SliceOutOfRange,
     set_buffers
       (BufferPool.FreeBuffer (buffers NewMountState)
          (flatData (Fixture.received Fixture.lookupMsg)))
       NewMountState).
Proof.
  apply (newRequest_needs_full_buffer (Fixture.received Fixture.lookupMsg)
           NewMountState).
  vm_compute. reflexivity.
Defined.

Lemma loop_turn_handles_the_message_witness :
  exists req me1 buf,
    trace me1 = trace NewMountState ++ [EvRead buf] /\
    elems (inputBuf req) = firstn (Z.to_nat bufSize) Fixture.lookupMsg /\
    inHeader req = None /\ inData req = None /\ arg req = [] /\
    outData req = None /\ flatData req = None /\ outHeaderBytes req = None /\
    status req = OK /\
    loopBody Fixture.getHandler Fixture.operationName (Some Fixture.used)
      (Fixture.delivers Fixture.lookupMsg) NewMountState
    = match handle Fixture.getHandler Fixture.operationName (req, me1) with
      | (Val _, (req', me')) => (Val (Continue, req'), me')
      | (Panic why, (_, me')) => (Panic why, me')
      end.
Proof.
  apply (loop_turn_handles_the_message Fixture.getHandler Fixture.operationName
           (Some Fixture.used) (Fixture.delivers Fixture.lookupMsg) NewMountState).
  - vm_compute. reflexivity.
  - reflexivity.
Defined.

Lemma loop_stops_on_terminal_error_witness :
  outcome (loopFrom Fixture.getHandler Fixture.operationName None
             [Fixture.fails ENODEV; Fixture.delivers Fixture.lookupMsg]
             NewMountState)
  = Val STOPPED /\
  replies
    (newEvents NewMountState
       (snd (loopFrom Fixture.getHandler Fixture.operationName None
               [Fixture.fails ENODEV; Fixture.delivers Fixture.lookupMsg]
               NewMountState)))
  = [].
Proof.
  destruct (loop_stops_on_terminal_error Fixture.getHandler Fixture.operationName
              None (Fixture.fails ENODEV) [Fixture.delivers Fixture.lookupMsg]
              NewMountState ENODEV) as (Hout & _ & Hrep & _).
  - exact I.
  - reflexivity.
  - vm_compute. discriminate.
  - split; [exact Hout | exact Hrep].
Defined.

Lemma loop_reads_once_per_turn_witness :
  length
    (readBuffers
       (newEvents NewMountState
          (snd (loop Fixture.getHandler Fixture.operationName
                  [Fixture.delivers Fixture.lookupMsg;
                   Fixture.delivers Fixture.forgetMsg] NewMountState))))
  = 2%nat.
Proof.
  apply (proj2 (loop_reads_once_per_turn Fixture.getHandler Fixture.operationName
                  [Fixture.delivers Fixture.lookupMsg;
                   Fixture.delivers Fixture.forgetMsg] NewMountState)).
  vm_compute. exact I.
Defined.

Lemma loop_replies_answer_messages_witness :
  exists rd,
    In rd [Fixture.fails ENOENT; Fixture.delivers Fixture.lookupMsg] /\
    rdErr rd = None /\
    oUnique (viewOutHeader Fixture.lookupReply)
    = Unique (viewInHeader (firstn (Z.to_nat bufSize) (rdData rd))).
Proof.
  apply (loop_replies_answer_messages Fixture.getHandler Fixture.operationName
           [Fixture.fails ENOENT; Fixture.delivers Fixture.lookupMsg]
           NewMountState (EvWrite Fixture.lookupReply) Fixture.lookupReply).
  - refine (proj1 (proj1 (filter_In isReply (EvWrite Fixture.lookupReply)
                            (newEvents NewMountState
                               (snd (loop Fixture.getHandler Fixture.operationName
                                       [Fixture.fails ENOENT;
                                        Fixture.delivers Fixture.lookupMsg]
                                       NewMountState)))) _)).
    vm_compute. left. reflexivity.
  - reflexivity.
Defined.
